(** * client_process_manager: daily client process report

    A shallow embedding of the decision logic of the repository:

    - [db_connection.py]   [DatabaseConnection.categorize_processes]
    - [daily_report.py]    [load_skip_apikeys],
                           [DailyReportOrchestrator.fetch_processes],
                           [process_failed_processes],
                           [process_finished_processes], and the part of
                           [run] between the query and the mail
    - [log_retriever.py]   [LogRetriever.find_log_file], [_contains_uuid],
                           [extract_process_logs], [extract_error_summary],
                           [save_process_log], [get_failed_process_logs]
    - [onedrive_manager.py] [OneDriveManager.find_process_video]
    - [email_report.py]    [EmailReportGenerator._generate_html_report],
                           [_generate_text_report]

    Python [str] values are modelled as [string], for ASCII text: letter
    case is the case of the 26 ASCII letters. A [dict] used as a map is a
    [gmap], a [set] a [gset]; a row of the database is a record. An
    exception is the [Raise] branch of [result]; a function that catches
    what it calls returns a plain value. The file system, the clock and
    the cloud storage are explicit arguments; output on stdout ([print])
    is not part of the model. *)

From Stdlib Require Import ZArith Ascii String DecimalString.
From stdpp Require Import gmap strings list sorting.

Local Open Scope Z_scope.

(** ** Exceptions *)

Inductive exn : Type :=
| AttributeError     (* method call on [None] *)
| TypeError
| OSError            (* failure of the file system *)
| RequestException.  (* [requests]: no connection, a timeout, a body that
                        is not JSON; the [HTTPError] of a status code is
                        the one kind the callers catch and has no
                        constructor *)

Inductive result (A : Type) : Type :=
| Ok (a : A)
| Raise (e : exn).
Arguments Ok {A} a.
Arguments Raise {A} e.

(** Sequencing: an exception of the first computation skips the rest. *)
#[global] Instance result_bind : MBind result := λ A B k r,
  match r with
  | Ok a => k a
  | Raise e => Raise e
  end.

(** A [for] loop whose body may raise: the state is threaded through the
    iterations and the first exception leaves the loop. *)
Fixpoint for_each {A S : Type} (body : S → A → result S) (l : list A) (s : S)
  : result S :=
  match l with
  | [] => Ok s
  | x :: l' => s' ← body s x; for_each body l' s'
  end.

(** ** Python string operations *)

Module Str.

Definition of_ascii (c : ascii) : string := String c EmptyString.

(** The characters that cannot be written inside a literal. *)
Definition dq : string := of_ascii (ascii_of_nat 34).
Definition nl : string := of_ascii (ascii_of_nat 10).

(** [c.lower()] on ASCII: [A]..[Z] move to [a]..[z]. *)
Definition lower_ascii (c : ascii) : ascii :=
  let n := nat_of_ascii c in
  if ((65 <=? n) && (n <=? 90))%nat then ascii_of_nat (n + 32) else c.

(** [s.lower()] *)
Fixpoint lower (s : string) : string :=
  match s with
  | EmptyString => EmptyString
  | String c s' => String (lower_ascii c) (lower s')
  end.

(** [s.startswith(p)] *)
Definition startswith (p s : string) : bool := String.prefix p s.

(** [sub in s] *)
Fixpoint contains (sub s : string) : bool :=
  startswith sub s ||
  match s with
  | EmptyString => false
  | String _ s' => contains sub s'
  end.

(** [s.split(sep)[0]] for a one-character separator: the text before the
    first separator, the whole string when there is none. *)
Fixpoint split_head (sep : ascii) (s : string) : string :=
  match s with
  | EmptyString => EmptyString
  | String c s' =>
      if Ascii.eqb c sep then EmptyString else String c (split_head sep s')
  end.

(** [s.rfind(c)], [None] for Python's [-1]. *)
Fixpoint rfind (c : ascii) (s : string) : option nat :=
  match s with
  | EmptyString => None
  | String d s' =>
      match rfind c s' with
      | Some i => Some (S i)
      | None => if Ascii.eqb d c then Some 0%nat else None
      end
  end.

(** [s.replace(c, by)] for a one-character pattern. *)
Fixpoint replace (c : ascii) (by_ : string) (s : string) : string :=
  match s with
  | EmptyString => EmptyString
  | String d s' =>
      (if Ascii.eqb d c then by_ else of_ascii d) +:+ replace c by_ s'
  end.

(** ["".join(l)] *)
Fixpoint join (l : list string) : string :=
  match l with
  | [] => EmptyString
  | s :: l' => s +:+ join l'
  end.

(** [str(n)] for a non-negative [int]. *)
Definition of_nat (n : nat) : string :=
  NilEmpty.string_of_uint (Nat.to_uint n).

(** One decimal digit, and the zero-padded fields of [%02d], [%04d] and
    [%06d]. *)
Definition digit (z : Z) : string :=
  of_ascii (ascii_of_nat (48 + Z.to_nat (z mod 10))).
Definition pad2 (z : Z) : string := digit (z / 10) +:+ digit z.
Definition pad4 (z : Z) : string := pad2 (z / 100) +:+ pad2 z.
Definition pad6 (z : Z) : string := pad2 (z / 10000) +:+ pad4 z.

(** [s.partition(sep)] for a separator given as a set of characters: the
    text before and after the first separator, [None] when there is none. *)
Fixpoint partition (is_sep : ascii → bool) (s : string)
  : option (string * string) :=
  match s with
  | EmptyString => None
  | String c s' =>
      if is_sep c then Some (EmptyString, s')
      else '(a, b) ← partition is_sep s'; Some (String c a, b)
  end.

(** [s[i:]] for [0 <= i] *)
Fixpoint drop (i : nat) (s : string) : string :=
  match i, s with
  | O, _ => s
  | S i', String _ s' => drop i' s'
  | S _, EmptyString => EmptyString
  end.

(** [s[:i]] for [0 <= i] *)
Fixpoint take (i : nat) (s : string) : string :=
  match i, s with
  | S i', String c s' => String c (take i' s')
  | _, _ => EmptyString
  end.

(** [s.endswith(p)]: [s] is long enough and its last [len(p)]
    characters are [p]. *)
Definition endswith (p s : string) : bool :=
  (String.length p <=? String.length s)%nat &&
  String.eqb (drop (String.length s - String.length p) s) p.

(** The value of a decimal digit. *)
Definition digit_val (c : ascii) : option Z :=
  let n := nat_of_ascii c in
  if ((48 <=? n) && (n <=? 57))%nat then Some (Z.of_nat (n - 48)) else None.

Fixpoint digits_val (acc : Z) (s : string) : option Z :=
  match s with
  | EmptyString => Some acc
  | String c s' => d ← digit_val c; digits_val (10 * acc + d) s'
  end.

(** [int(s)] for a non-empty run of decimal digits. *)
Definition parse_int (s : string) : option Z :=
  match s with
  | EmptyString => None
  | _ => digits_val 0 s
  end.

(** [s * n] *)
Fixpoint times (s : string) (n : nat) : string :=
  match n with
  | O => EmptyString
  | S n' => s +:+ times s n'
  end.

(** [sep.join(l)] *)
Fixpoint join_with (sep : string) (l : list string) : string :=
  match l with
  | [] => EmptyString
  | [s] => s
  | s :: l' => s +:+ sep +:+ join_with sep l'
  end.

(** [c.isspace()] on ASCII: tab to carriage return, the four separators
    and the space. *)
Definition isspace (c : ascii) : bool :=
  let n := nat_of_ascii c in
  ((9 <=? n) && (n <=? 13))%nat || ((28 <=? n) && (n <=? 32))%nat.

(** [s.lstrip()] *)
Fixpoint lstrip (s : string) : string :=
  match s with
  | EmptyString => EmptyString
  | String c s' => if isspace c then lstrip s' else s
  end.

(** [s.rstrip()] *)
Fixpoint rstrip (s : string) : string :=
  match s with
  | EmptyString => EmptyString
  | String c s' =>
      match rstrip s' with
      | EmptyString => if isspace c then EmptyString else String c EmptyString
      | r => String c r
      end
  end.

(** [s.strip()] *)
Definition strip (s : string) : string := rstrip (lstrip s).

(** Case-insensitive occurrence, stated without reference to [lower] of
    the whole text: some slice of [s] equals [pat] up to letter case. *)
Definition ci_occurs (pat s : string) : Prop :=
  ∃ pre mid post : string,
    s = pre +:+ mid +:+ post ∧ lower mid = lower pat.

End Str.

(** ** [datetime]

    The fields of Python's [datetime] and the arithmetic of its reference
    implementation: a proleptic Gregorian ordinal for the date, seconds
    and microseconds for the time of day. [tzinfo] is [None] for a naive
    value and the UTC offset in minutes for an aware one. *)

Module datetime.

Record t : Type := mk {
  year : Z; month : Z; day : Z;
  hour : Z; minute : Z; second : Z; microsecond : Z;
  tzinfo : option Z
}.

Definition is_leap (y : Z) : bool :=
  (y mod 4 =? 0) && (negb (y mod 100 =? 0) || (y mod 400 =? 0)).

Definition days_before_year (y : Z) : Z :=
  let y' := y - 1 in y' * 365 + y' / 4 - y' / 100 + y' / 400.

Definition days_in_month (y m : Z) : Z :=
  if (m =? 2) && is_leap y then 29
  else nth (Z.to_nat m) [0; 31; 28; 31; 30; 31; 30; 31; 31; 30; 31; 30; 31] 0.

Definition days_before_month (y m : Z) : Z :=
  nth (Z.to_nat m) [0; 0; 31; 59; 90; 120; 151; 181; 212; 243; 273; 304; 334] 0
  + (if (2 <? m) && is_leap y then 1 else 0).

Definition ymd2ord (y m d : Z) : Z :=
  days_before_year y + days_before_month y m + d.

Definition toordinal (d : t) : Z := ymd2ord (year d) (month d) (day d).

(** The range checks of the constructor. *)
Definition valid (d : t) : bool :=
  (1 <=? year d) && (year d <=? 9999) &&
  (1 <=? month d) && (month d <=? 12) &&
  (1 <=? day d) && (day d <=? days_in_month (year d) (month d)) &&
  (0 <=? hour d) && (hour d <=? 23) &&
  (0 <=? minute d) && (minute d <=? 59) &&
  (0 <=? second d) && (second d <=? 59) &&
  (0 <=? microsecond d) && (microsecond d <=? 999999).

(** A [timedelta], as its exact number of microseconds. *)
Definition timedelta : Type := Z.

Definition seconds (n : Z) : timedelta := n * 1000000.

(** Microseconds since the start of ordinal day 0, on the value's own
    clock. *)
Definition micros (d : t) : Z :=
  seconds (toordinal d * 86400 + hour d * 3600 + minute d * 60 + second d)
  + microsecond d.

(** [a - b]: mixing a naive and an aware value raises [TypeError]; two
    aware values are compared in UTC. *)
Definition sub (a b : t) : result timedelta :=
  let base := micros a - micros b in
  match tzinfo a, tzinfo b with
  | None, None => Ok base
  | Some oa, Some ob => Ok (base + seconds (ob * 60) - seconds (oa * 60))
  | _, _ => Raise TypeError
  end.

(** [td.total_seconds() < n] and [td.total_seconds() > n] for an integer
    [n]. [total_seconds] divides the microseconds by [10**6] with correct
    rounding, which is monotone and leaves the integer [n] fixed, so the
    comparison is the comparison of the exact values. *)
Definition total_seconds_lt (td : timedelta) (n : Z) : bool := td <? seconds n.
Definition total_seconds_gt (td : timedelta) (n : Z) : bool := seconds n <? td.

(** [d.strftime('%Y-%m-%d')] (four-digit years) *)
Definition strftime_date (d : t) : string :=
  Str.pad4 (year d) +:+ "-" +:+ Str.pad2 (month d) +:+ "-" +:+ Str.pad2 (day d).

(** [d.strftime('%Y-%m-%d %H:%M:%S')] *)
Definition strftime_datetime (d : t) : string :=
  strftime_date d +:+ " " +:+ Str.pad2 (hour d) +:+ ":" +:+
  Str.pad2 (minute d) +:+ ":" +:+ Str.pad2 (second d).

(** [d.strftime('%Y%m%d_%H%M%S')] *)
Definition strftime_compact (d : t) : string :=
  Str.pad4 (year d) +:+ Str.pad2 (month d) +:+ Str.pad2 (day d) +:+ "_" +:+
  Str.pad2 (hour d) +:+ Str.pad2 (minute d) +:+ Str.pad2 (second d).

(** [str(d)], that is [d.isoformat(sep=' ')] *)
Definition str (d : t) : string :=
  strftime_datetime d +:+
  (if microsecond d =? 0 then "" else "." +:+ Str.pad6 (microsecond d)) +:+
  match tzinfo d with
  | None => ""
  | Some off =>
      (if off <? 0 then "-" else "+") +:+
      Str.pad2 (Z.abs off / 60) +:+ ":" +:+ Str.pad2 (Z.abs off mod 60)
  end.

(** One numeric field of [strptime]: one or two decimal digits whose
    value lies in [lo..hi]. *)
Definition field2 (lo hi : Z) (s : string) : option Z :=
  if ((1 <=? String.length s) && (String.length s <=? 2))%nat then
    v ← Str.parse_int s;
    if (lo <=? v) && (v <=? hi) then Some v else None
  else None.

(** [%Y]: exactly four digits. *)
Definition field_Y (s : string) : option Z :=
  if (String.length s =? 4)%nat then Str.parse_int s else None.

(** [%d]: as [field2], or a space and one non-zero digit. *)
Definition field_d (s : string) : option Z :=
  match s with
  | String " " s' =>
      if (String.length s' =? 1)%nat then
        v ← Str.parse_int s'; if 1 <=? v then Some v else None
      else None
  | _ => field2 1 31 s
  end.

Definition is_dash (c : ascii) : bool := Ascii.eqb c "-".
Definition is_T (c : ascii) : bool := Ascii.eqb c "T" || Ascii.eqb c "t".

(** [datetime.strptime(s, '%Y-%m-%dT%H-%M-%S')]; [None] stands for
    [ValueError]. The text is cut at the literal separators of the
    format (the letter is matched without regard to case), every field
    has to match the directive's pattern, nothing may remain after the
    seconds, and the constructor checks the ranges. *)
Definition strptime (s : string) : option t :=
  '(sY, r1) ← Str.partition is_dash s;
  '(sm, r2) ← Str.partition is_dash r1;
  '(sd, r3) ← Str.partition is_T r2;
  '(sH, r4) ← Str.partition is_dash r3;
  '(sM, sS) ← Str.partition is_dash r4;
  y ← field_Y sY;
  m ← field2 1 12 sm;
  d ← field_d sd;
  H ← field2 0 23 sH;
  M ← field2 0 59 sM;
  S ← field2 0 61 sS;
  let r := mk y m d H M S 0 None in
  if valid r then Some r else None.

End datetime.

(** ** Job records

    One row of [get_last_24h_processes]. The cursor returns every selected
    column, so every key is present; a text column that is [NULL] in the
    database is [None]. [start_time] is never [NULL] (the query compares
    it), and [elapsed_time_min] is a number with one decimal, kept as its
    count of tenths. *)

Record process : Type := mk_process {
  name : option string;
  api_key : option string;
  status_name : option string;
  start_time : datetime.t;
  stop_time : option datetime.t;
  elapsed_time_min : option Z;
  source_alias : option string;
  process_uuid : string
}.

(** ** [db_connection.py]: [categorize_processes] *)

(** The dictionary with the four lists. *)
Record categorized : Type := mk_categorized {
  finished : list process;
  failed : list process;
  running : list process;
  other : list process
}.

(** One iteration of the loop. [process['status_name'].lower()] raises
    [AttributeError] when the status is [None]. *)
Definition categorize_body (c : categorized) (p : process) : result categorized :=
  match status_name p with
  | None => Raise AttributeError
  | Some s =>
      let status := Str.lower s in
      if Str.contains "finish" status || Str.contains "complete" status then
        Ok (mk_categorized (finished c ++ [p]) (failed c) (running c) (other c))
      else if Str.contains "fail" status || Str.contains "error" status then
        Ok (mk_categorized (finished c) (failed c ++ [p]) (running c) (other c))
      else if Str.contains "running" status || Str.contains "processing" status then
        Ok (mk_categorized (finished c) (failed c) (running c ++ [p]) (other c))
      else
        Ok (mk_categorized (finished c) (failed c) (running c) (other c ++ [p]))
  end.

Definition categorize_processes (processes : list process) : result categorized :=
  for_each categorize_body processes (mk_categorized [] [] [] []).

(** ** [daily_report.py]: [fetch_processes] *)

(** [key in skip_apikeys] for a key that is a string or [None]; the set
    holds strings only. *)
Definition in_skip (skip_apikeys : gset string) (key : option string) : bool :=
  match key with
  | Some k => bool_decide (k ∈ skip_apikeys)
  | None => false
  end.

(** A text file as the program reads it: the lines an iteration yields,
    each with its line end, and whether the iteration ends with an error
    of the file system. *)
Record text_file : Type := mk_text_file {
  file_lines : list string;
  read_error : bool
}.

(** One iteration of the loop of [load_skip_apikeys]. *)
Definition skip_line (skip_apikeys : gset string) (line : string) : gset string :=
  let line := Str.strip line in
  if negb (String.eqb line "") && negb (Str.startswith "#" line)
  then skip_apikeys ∪ {[line]}
  else skip_apikeys.

(** [load_skip_apikeys]: [skip_file] is [None] when the file does not
    exist. Nothing catches an error of [open] or of the iteration, so the
    keys read before it are lost. *)
Definition load_skip_apikeys (skip_file : option text_file) : result (gset string) :=
  match skip_file with
  | None => Ok ∅
  | Some f =>
      let skip_apikeys := foldl skip_line ∅ (file_lines f) in
      if read_error f then Raise OSError else Ok skip_apikeys
  end.

(** [rows] is what [get_last_24h_processes] returned. The filter runs only
    for a non-empty skip set. *)
Definition fetch_processes (skip_apikeys : gset string) (rows : list process)
  : result (list process * categorized) :=
  let all_processes :=
    if bool_decide (skip_apikeys ≠ ∅)
    then filter (λ p, in_skip skip_apikeys (api_key p) = false) rows
    else rows in
  c ← categorize_processes all_processes;
  Ok (all_processes, c).

(** ** [log_retriever.py]

    A file of the logs directory: its name and what iterating over it
    gives. Reading lazily yields lines (each with its line end) and then
    either stops or raises ([fails]); a file that cannot be opened yields
    nothing and fails. [as_text] is the iteration of [open(f, 'r')],
    [as_gzip] that of [gzip.open(f, 'rt')]. *)

Record reading : Type := mk_reading {
  yielded : list string;
  fails : bool
}.

Module Path.

Record t : Type := mk {
  name : string;
  as_text : reading;
  as_gzip : reading
}.

(** [p.suffix]: from the last dot of the name, unless that dot is the
    first or the last character. *)
Definition suffix (p : t) : string :=
  match Str.rfind "." (name p) with
  | Some i =>
      if ((0 <? i) && (i <? String.length (name p) - 1))%nat
      then Str.drop i (name p) else ""
  | None => ""
  end.

(** [p.stem]: the name without its suffix. *)
Definition stem (p : t) : string :=
  match Str.rfind "." (name p) with
  | Some i =>
      if ((0 <? i) && (i <? String.length (name p) - 1))%nat
      then Str.take i (name p) else name p
  | None => name p
  end.

(** The order of [sorted] on the paths of one directory. *)
Definition le (p q : t) : Prop := String.le (name p) (name q).

#[global] Instance le_dec : RelDecision le.
Proof. intros p q. unfold le. apply _. Defined.

#[global] Instance le_transitive : Transitive le.
Proof. intros p q r. unfold le. apply transitivity. Qed.

#[global] Instance le_total : Total le.
Proof. intros p q. unfold le. apply total, _. Qed.

End Path.

(** [fnmatch] of a name against [f"{date_str}T*_perception_api.log"]: the
    star takes any text, the empty one too. *)
Definition glob_match (date_str name : string) : bool :=
  Str.startswith (date_str +:+ "T") name &&
  Str.endswith "_perception_api.log" name &&
  (String.length (date_str +:+ "T") + String.length "_perception_api.log"
   <=? String.length name)%nat.

(** [logs_dir.glob(pattern)]: the files of the directory whose name
    matches, in the order of the directory listing. *)
Definition glob (logs_dir : list Path.t) (date_str : string) : list Path.t :=
  filter (λ f, glob_match date_str (Path.name f) = true) logs_dir.

(** [_contains_uuid]: the loop returns at the first line that holds the
    identifier; an exception is caught and gives [False]. *)
Definition _contains_uuid (log_file : Path.t) (process_uuid : string) : bool :=
  let f := if String.eqb (Path.suffix log_file) ".gz"
           then Path.as_gzip log_file else Path.as_text log_file in
  existsb (Str.contains process_uuid) (yielded f).

(** The first part of the loop body of [find_log_file]: [true] when the
    iteration reaches [continue]. A file name that does not parse, and a
    subtraction that raises, are caught and the file is checked anyway. *)
Definition outside_window (start_time : datetime.t) (log_file : Path.t) : bool :=
  let filename := Path.stem log_file in
  let timestamp_str := Str.split_head "_" filename in
  match datetime.strptime timestamp_str with
  | None => false
  | Some log_time =>
      match datetime.sub start_time log_time with
      | Raise _ => false
      | Ok time_diff =>
          datetime.total_seconds_lt time_diff (-3600) ||
          datetime.total_seconds_gt time_diff 86400
      end
  end.

(** The loop of [find_log_file] over the sorted files: the files it
    opened, in order, and the file it returns. *)
Fixpoint find_log_file_loop (process_uuid : string) (start_time : datetime.t)
  (files : list Path.t) : list Path.t * option Path.t :=
  match files with
  | [] => ([], None)
  | log_file :: rest =>
      if outside_window start_time log_file then
        find_log_file_loop process_uuid start_time rest
      else if _contains_uuid log_file process_uuid then
        ([log_file], Some log_file)
      else
        let '(opened, r) := find_log_file_loop process_uuid start_time rest in
        (log_file :: opened, r)
  end.

(** The candidates of [find_log_file], in the order the loop visits them. *)
Definition candidates (logs_dir : list Path.t) (start_time : datetime.t)
  : list Path.t :=
  merge_sort Path.le (glob logs_dir (datetime.strftime_date start_time)).

Definition find_log_file_run (logs_dir : list Path.t) (process_uuid : string)
  (start_time : datetime.t) : list Path.t * option Path.t :=
  find_log_file_loop process_uuid start_time (candidates logs_dir start_time).

Definition find_log_file (logs_dir : list Path.t) (process_uuid : string)
  (start_time : datetime.t) : option Path.t :=
  snd (find_log_file_run logs_dir process_uuid start_time).

(** The files [find_log_file] opened. *)
Definition find_log_file_opened (logs_dir : list Path.t) (process_uuid : string)
  (start_time : datetime.t) : list Path.t :=
  fst (find_log_file_run logs_dir process_uuid start_time).

(** [extract_process_logs] for a file of the directory: the list is built
    inside the [try], so an exception while reading gives the empty list. *)
Definition extract_process_logs (log_file : Path.t) (process_uuid : string)
  : list string :=
  let f := if String.eqb (Path.suffix log_file) ".gz"
           then Path.as_gzip log_file else Path.as_text log_file in
  if fails f then []
  else filter (λ line, Str.contains process_uuid line = true) (yielded f).

(** [l[i:]] for any integer [i]: a negative index counts from the end, and
    both are clamped to the list. *)
Definition slice_from {A : Type} (i : Z) (l : list A) : list A :=
  let len := Z.of_nat (length l) in
  let start := if i <? 0 then Z.max 0 (i + len) else Z.min i len in
  drop (Z.to_nat start) l.

Definition important_patterns : list string :=
  ["ERROR"; "EXCEPTION"; "TRACEBACK"; "CRITICAL"; "FATAL"; "Failed"; "Exception:"]%string.

(** [re.search(pattern, line, re.IGNORECASE)] for a pattern without
    special characters. *)
Definition re_search_ignorecase (pattern line : string) : bool :=
  Str.contains (Str.lower pattern) (Str.lower line).

Definition is_important (line : string) : bool :=
  existsb (λ pattern, re_search_ignorecase pattern line) important_patterns.

Definition extract_error_summary (log_lines : list string) (max_lines : Z) : string :=
  match log_lines with
  | [] => "No log data available"
  | _ =>
      let important_lines := filter (λ line, is_important line = true) log_lines in
      match important_lines with
      | _ :: _ =>
          let result_lines := slice_from (- max_lines) important_lines in
          let header := "=== Error Summary (" +:+ Str.of_nat (length important_lines)
                        +:+ " error lines found) ===" +:+ Str.nl +:+ Str.nl in
          header +:+ Str.join result_lines
      | [] =>
          let result_lines := slice_from (- max_lines) log_lines in
          let header := "=== Last " +:+ Str.of_nat (length result_lines)
                        +:+ " log lines ===" +:+ Str.nl +:+ Str.nl in
          header +:+ Str.join result_lines
      end
  end.

(** ** Values of the result dictionaries *)

Inductive pyval : Type :=
| PNone
| PBool (b : bool)
| PInt (n : Z)
| PStr (s : string).

(** [bool(v)] *)
Definition truthy (v : pyval) : bool :=
  match v with
  | PNone => false
  | PBool b => b
  | PInt n => negb (n =? 0)
  | PStr s => negb (String.eqb s "")
  end.

(** [str(v)], as an f-string renders the value. *)
Definition py_str (v : pyval) : string :=
  match v with
  | PNone => "None"
  | PBool b => if b then "True" else "False"
  | PInt n => (if n <? 0 then "-" else "") +:+ Str.of_nat (Z.to_nat (Z.abs n))
  | PStr s => s
  end.

Definition str_or_None (o : option string) : string := default "None"%string o.

Definition datetime_or_None (o : option datetime.t) : string :=
  from_option datetime.str "None"%string o.

(** A number with one decimal, given as its count of tenths. *)
Definition decimal_str (tenths : Z) : string :=
  (if tenths <? 0 then "-" else "") +:+
  Str.of_nat (Z.to_nat (Z.abs tenths / 10)) +:+ "." +:+ Str.digit (Z.abs tenths).

Definition decimal_or_None (o : option Z) : string :=
  from_option decimal_str "None"%string o.

(** The information about one failed job: a dictionary from field names
    to values. *)
Abbreviation log_info := (gmap string pyval).

(** ** [log_retriever.py]: saving and [get_failed_process_logs] *)

Record LogRetriever : Type := mk_LogRetriever {
  logs_dir : string;          (* the directory, as text *)
  listing : list Path.t       (* its files *)
}.

(** The surroundings of a run: the reading of the clock at the n-th call
    of [datetime.now()], whether a file can be created at a path, and the
    home directory. *)
Record env : Type := mk_env {
  now : nat → datetime.t;
  writable : string → bool;
  home : string
}.

(** What a run has written so far and how often it read the clock. *)
Record outputs : Type := mk_outputs {
  disk : gmap string string;
  clock_reads : nat
}.

(** [pathlib.PurePosixPath]: a path is its root ([""], ["/"] or ["//"])
    and its components. Parsing splits the text at the slashes and drops
    the empty components and the components ["."]; exactly two leading
    slashes are a root of their own. Joining with a path that has a root
    gives that path. The model is that of a POSIX file system, on which
    two names of one directory are two files. *)
Module PurePosixPath.

Record t : Type := mk {
  root : string;
  parts : list string
}.

(** [s.split('/')] *)
Fixpoint split (s : string) : list string :=
  match s with
  | EmptyString => [EmptyString]
  | String c s' =>
      if Ascii.eqb c "/" then EmptyString :: split s'
      else
        match split s' with
        | x :: l => String c x :: l
        | [] => [String c EmptyString]
        end
  end.

(** The root of a text: none when it does not begin with a slash, two
    slashes when it begins with exactly two, one slash otherwise. *)
Definition splitroot (s : string) : string :=
  if Str.startswith "/" s then
    if Str.startswith "//" s && negb (Str.startswith "///" s) then "//" else "/"
  else "".

Definition is_part (x : string) : bool :=
  negb (String.eqb x "") && negb (String.eqb x ".").

(** [PurePosixPath(s)] *)
Definition of_string (s : string) : t :=
  mk (splitroot s) (filter (λ x, is_part x = true) (split s)).

(** [a / b] *)
Definition truediv (a b : t) : t :=
  if String.eqb (root b) "" then mk (root a) (parts a ++ parts b) else b.

(** [str(p)] *)
Definition str (p : t) : string :=
  match root p, parts p with
  | EmptyString, [] => "."
  | r, ps => r +:+ Str.join_with "/" ps
  end.

End PurePosixPath.

(** [str(Path(dir) / part)] *)
Definition joinpath (dir part : string) : string :=
  PurePosixPath.str
    (PurePosixPath.truediv (PurePosixPath.of_string dir)
                           (PurePosixPath.of_string part)).

(** [save_process_log]: creating the directory or the file may fail with
    [OSError]. *)
Definition save_process_log (e : env) (process_uuid log_content output_dir : string)
  (out : outputs) : result (string * outputs) :=
  let timestamp := datetime.strftime_compact (now e (clock_reads out)) in
  let output_file := joinpath output_dir (process_uuid +:+ "_" +:+ timestamp +:+ ".log") in
  if writable e output_file then
    Ok (output_file,
        mk_outputs (<[output_file := log_content]> (disk out)) (S (clock_reads out)))
  else Raise OSError.

Definition not_found_info : log_info :=
  <["found" := PBool false]> (<["log_file" := PNone]>
  (<["summary" := PStr "Log file not found"]> (<["saved_path" := PNone]> ∅))).

Definition found_info (log_file summary full_log saved_path : string)
  (line_count : nat) : log_info :=
  <["found" := PBool true]> (<["log_file" := PStr log_file]>
  (<["summary" := PStr summary]> (<["full_log" := PStr full_log]>
  (<["saved_path" := PStr saved_path]>
  (<["line_count" := PInt (Z.of_nat line_count)]> ∅))))).

(** One iteration of the loop of [get_failed_process_logs]. *)
Definition failed_logs_body (self : LogRetriever) (e : env) (output_dir : string)
  (st : gmap string log_info * outputs) (p : process)
  : result (gmap string log_info * outputs) :=
  let '(results, out) := st in
  let process_uuid := process_uuid p in
  match find_log_file (listing self) process_uuid (start_time p) with
  | None => Ok (<[process_uuid := not_found_info]> results, out)
  | Some log_file =>
      let log_lines := extract_process_logs log_file process_uuid in
      let summary := extract_error_summary log_lines 50 in
      let full_log := Str.join log_lines in
      '(saved_path, out') ← save_process_log e process_uuid full_log output_dir out;
      Ok (<[process_uuid :=
              found_info (joinpath (logs_dir self) (Path.name log_file))
                         summary full_log saved_path (length log_lines)]> results,
          out')
  end.

Definition get_failed_process_logs (self : LogRetriever) (e : env)
  (failed_processes : list process) (output_dir : option string) (out : outputs)
  : result (gmap string log_info * outputs) :=
  let output_dir := default (joinpath (home e) "failed_process_logs") output_dir in
  for_each (failed_logs_body self e output_dir) failed_processes (∅, out).

(** ** [daily_report.py]: the enrichment of the buckets *)

Definition not_configured_info : log_info :=
  <["found" := PBool false]> (<["log_file" := PNone]>
  (<["summary" := PStr "Log retrieval not configured"]> (<["saved_path" := PNone]> ∅))).

Definition process_failed_processes (log_retriever : option LogRetriever) (e : env)
  (output_dir : string) (failed_processes : list process) (out : outputs)
  : result (gmap string log_info * outputs) :=
  match failed_processes with
  | [] => Ok (∅, out)
  | _ =>
      match log_retriever with
      | Some retriever =>
          get_failed_process_logs retriever e failed_processes
            (Some (joinpath output_dir "failed_logs")) out
      | None =>
          Ok (foldl (λ failed_logs p, <[process_uuid p := not_configured_info]> failed_logs)
                    ∅ failed_processes, out)
      end
  end.

(** The cloud storage. An item of a folder, as the Graph API lists it. *)
Record drive_item : Type := mk_drive_item {
  item_name : string;
  is_file : bool;
  webUrl : option string
}.

(** What the [try] block of [find_process_video] meets when it asks for
    the children of a folder: the items of the body; a status code that
    makes [raise_for_status] raise [HTTPError]; or any other exception,
    of [requests.get] (no connection, a timeout), of [response.json()]
    (a body that is not JSON) or of reading a body of another shape. *)
Inductive response : Type :=
| Listed (items : list drive_item)
| HTTPStatusError
| RequestFailed (e : exn).

Record OneDriveManager : Type := mk_OneDriveManager {
  onedrive_root : string;
  children : string → response
}.

Definition video_extensions : list string :=
  [".mp4"; ".avi"; ".mov"; ".mkv"; ".webm"]%string.

Definition is_video (item : drive_item) : bool :=
  is_file item &&
  existsb (λ ext, Str.endswith ext (Str.lower (item_name item))) video_extensions.

(** [find_process_video]: the [except] clause catches [HTTPError] only;
    every other exception of the request leaves the function. *)
Definition find_process_video (self : OneDriveManager) (process_uuid api_key : string)
  : result (option string) :=
  let process_folder := onedrive_root self +:+ "/" +:+ api_key +:+ "/" +:+ process_uuid in
  match children self process_folder with
  | Listed items => Ok (item ← List.find is_video items; webUrl item)
  | HTTPStatusError => Ok None
  | RequestFailed e => Raise e
  end.

Record finished_info : Type := mk_finished_info {
  client_name : option string;
  info_api_key : option string;
  video_link : option string;
  info_process : process
}.

(** One iteration of the loop of [process_finished_processes]: an
    exception of [find_process_video] leaves the loop. *)
Definition finished_body (onedrive_manager : OneDriveManager)
  (finished_data : gmap string finished_info) (p : process)
  : result (gmap string finished_info) :=
  match api_key p with
  | Some key =>
      if String.eqb key "" then
        Ok (<[process_uuid p := mk_finished_info (name p) None None p]> finished_data)
      else
        video_link ← find_process_video onedrive_manager (process_uuid p) key;
        Ok (<[process_uuid p := mk_finished_info (name p) (Some key) video_link p]>
              finished_data)
  | None =>
      Ok (<[process_uuid p := mk_finished_info (name p) None None p]> finished_data)
  end.

Definition process_finished_processes (onedrive_manager : OneDriveManager)
  (finished_processes : list process) : result (gmap string finished_info) :=
  for_each (finished_body onedrive_manager) finished_processes ∅.

(** ** [email_report.py]: [_generate_html_report]

    The pieces of text the function appends, named by the line of the
    source they start at. *)

(** line 126 *)
Definition html_header (timestamp : datetime.t) (total_processes finished_count failed_count running_count : nat) : string :=
  "
<!DOCTYPE html>
<html>
<head>
    <style>
        body { font-family: Arial, sans-serif; line-height: 1.6; color: #333; }
        .header { background: #2c3e50; color: white; padding: 20px; border-radius: 5px; }
        .summary { background: #ecf0f1; padding: 15px; margin: 20px 0; border-radius: 5px; }
        .section { margin: 20px 0; }
        .section-title { color: #2c3e50; border-bottom: 2px solid #3498db; padding-bottom: 5px; }
        .process-card { background: #fff; border: 1px solid #ddd; padding: 15px; margin: 10px 0; border-radius: 5px; }
        .failed { border-left: 4px solid #e74c3c; }
        .finished { border-left: 4px solid #27ae60; }
        .running { border-left: 4px solid #f39c12; }
        .log-snippet { background: #2c3e50; color: #ecf0f1; padding: 10px; border-radius: 3px; font-family: monospace; font-size: 12px; overflow-x: auto; }
        table { width: 100%; border-collapse: collapse; margin: 10px 0; }
        th, td { padding: 10px; text-align: left; border-bottom: 1px solid #ddd; }
        th { background: #3498db; color: white; }
        .status-badge { padding: 3px 8px; border-radius: 3px; font-size: 12px; font-weight: bold; }
        .badge-failed { background: #e74c3c; color: white; }
        .badge-finished { background: #27ae60; color: white; }
        .badge-running { background: #f39c12; color: white; }
        a { color: #3498db; text-decoration: none; }
        a:hover { text-decoration: underline; }
    </style>
</head>
<body>
    <div class=" +:+ Str.dq +:+ "header" +:+ Str.dq +:+ ">
        <h1>📊 Daily Client Process Report</h1>
        <p>Generated: " +:+ datetime.strftime_datetime timestamp +:+ "</p>
    </div>
    
    <div class=" +:+ Str.dq +:+ "summary" +:+ Str.dq +:+ ">
        <h2>📈 Summary</h2>
        <table>
            <tr>
                <th>Total Processes</th>
                <th>✅ Finished</th>
                <th>❌ Failed</th>
                <th>⏳ Running</th>
            </tr>
            <tr>
                <td><strong>" +:+ Str.of_nat total_processes +:+ "</strong></td>
                <td><span class=" +:+ Str.dq +:+ "status-badge badge-finished" +:+ Str.dq +:+ ">" +:+ Str.of_nat finished_count +:+ "</span></td>
                <td><span class=" +:+ Str.dq +:+ "status-badge badge-failed" +:+ Str.dq +:+ ">" +:+ Str.of_nat failed_count +:+ "</span></td>
                <td><span class=" +:+ Str.dq +:+ "status-badge badge-running" +:+ Str.dq +:+ ">" +:+ Str.of_nat running_count +:+ "</span></td>
            </tr>
        </table>
    </div>
".

(** line 179 *)
Definition failed_section_open : string :=
  "
    <div class=" +:+ Str.dq +:+ "section" +:+ Str.dq +:+ ">
        <h2 class=" +:+ Str.dq +:+ "section-title" +:+ Str.dq +:+ ">❌ Failed Processes</h2>
".

(** line 187 *)
Definition failed_card_head (process : process) (uuid : string) : string :=
  "
        <div class=" +:+ Str.dq +:+ "process-card failed" +:+ Str.dq +:+ ">
            <h3>" +:+ str_or_None (name process) +:+ "</h3>
            <table>
                <tr><td><strong>Process UUID:</strong></td><td>" +:+ uuid +:+ "</td></tr>
                <tr><td><strong>Status:</strong></td><td>" +:+ str_or_None (status_name process) +:+ "</td></tr>
                <tr><td><strong>Start Time:</strong></td><td>" +:+ datetime.str (start_time process) +:+ "</td></tr>
                <tr><td><strong>Source:</strong></td><td>" +:+ str_or_None (source_alias process) +:+ "</td></tr>
            </table>
".

(** line 200 *)
Definition failed_card_found (summary saved_path : string) : string :=
  "
            <h4>🔍 Error Summary:</h4>
            <div class=" +:+ Str.dq +:+ "log-snippet" +:+ Str.dq +:+ ">" +:+ summary +:+ "</div>
            <p><small>Full log available at: " +:+ saved_path +:+ "</small></p>
".

(** line 206 *)
Definition failed_card_not_found : string :=
  "
            <p><em>⚠️ Log file not found</em></p>
".

(** line 210 *)
Definition failed_card_close : string :=
  "
        </div>
".

(** line 213 *)
Definition section_close : string :=
  "
    </div>
".

(** line 219 *)
Definition finished_section_open : string :=
  "
    <div class=" +:+ Str.dq +:+ "section" +:+ Str.dq +:+ ">
        <h2 class=" +:+ Str.dq +:+ "section-title" +:+ Str.dq +:+ ">✅ Finished Processes</h2>
".

(** line 228 *)
Definition finished_card_head (process : process) (uuid : string) : string :=
  "
        <div class=" +:+ Str.dq +:+ "process-card finished" +:+ Str.dq +:+ ">
            <h3>" +:+ str_or_None (name process) +:+ "</h3>
            <table>
                <tr><td><strong>Process UUID:</strong></td><td>" +:+ uuid +:+ "</td></tr>
                <tr><td><strong>Status:</strong></td><td>" +:+ str_or_None (status_name process) +:+ "</td></tr>
                <tr><td><strong>Start Time:</strong></td><td>" +:+ datetime.str (start_time process) +:+ "</td></tr>
                <tr><td><strong>Stop Time:</strong></td><td>" +:+ datetime_or_None (stop_time process) +:+ "</td></tr>
                <tr><td><strong>Duration:</strong></td><td>" +:+ decimal_or_None (elapsed_time_min process) +:+ " min</td></tr>
                <tr><td><strong>Source:</strong></td><td>" +:+ str_or_None (source_alias process) +:+ "</td></tr>
".

(** line 241 *)
Definition video_row (video_link : string) : string :=
  "
                <tr><td><strong>📹 Video:</strong></td><td><a href=" +:+ Str.dq +:+ video_link +:+ Str.dq +:+ ">View in OneDrive</a></td></tr>
".

(** line 245 *)
Definition video_missing_row : string :=
  "
                <tr><td><strong>📹 Video:</strong></td><td><em>Not found in OneDrive</em></td></tr>
".

(** line 249 *)
Definition finished_card_close : string :=
  "
            </table>
        </div>
".

(** line 259 *)
Definition running_section_open : string :=
  "
    <div class=" +:+ Str.dq +:+ "section" +:+ Str.dq +:+ ">
        <h2 class=" +:+ Str.dq +:+ "section-title" +:+ Str.dq +:+ ">⏳ Running Processes</h2>
".

(** line 264 *)
Definition running_card (process : process) : string :=
  "
        <div class=" +:+ Str.dq +:+ "process-card running" +:+ Str.dq +:+ ">
            <h3>" +:+ str_or_None (name process) +:+ "</h3>
            <table>
                <tr><td><strong>Process UUID:</strong></td><td>" +:+ process_uuid process +:+ "</td></tr>
                <tr><td><strong>Status:</strong></td><td>" +:+ str_or_None (status_name process) +:+ "</td></tr>
                <tr><td><strong>Start Time:</strong></td><td>" +:+ datetime.str (start_time process) +:+ "</td></tr>
                <tr><td><strong>Elapsed:</strong></td><td>" +:+ decimal_or_None (elapsed_time_min process) +:+ " min</td></tr>
            </table>
        </div>
".

(** line 279 *)
Definition html_footer : string :=
  "
    <div class=" +:+ Str.dq +:+ "section" +:+ Str.dq +:+ ">
        <p style=" +:+ Str.dq +:+ "color: #7f8c8d; font-size: 12px;" +:+ Str.dq +:+ ">
            <em>This is an automated report generated by the Client Process Monitoring System.</em>
        </p>
    </div>
</body>
</html>
".

(** The card of one failed job. [.replace] on a summary that is not a
    string raises [AttributeError]. *)
Definition failed_card (failed_logs : gmap string log_info) (process : process)
  : result string :=
  let uuid := process_uuid process in
  let log_info := default ∅ (failed_logs !! uuid) in
  let html := failed_card_head process uuid in
  html ←
    (if from_option truthy false (log_info !! "found") then
       match default (PStr "") (log_info !! "summary") with
       | PStr s =>
           let summary := Str.replace (ascii_of_nat 10) "<br>" s in
           let saved_path := py_str (default (PStr "N/A") (log_info !! "saved_path")) in
           Ok (html +:+ failed_card_found summary saved_path)
       | _ => Raise AttributeError
       end
     else Ok (html +:+ failed_card_not_found));
  Ok (html +:+ failed_card_close).

Definition finished_card (finished_data : gmap string finished_info)
  (process : process) : string :=
  let uuid := process_uuid process in
  let video_link := finished_data !! uuid ≫= video_link in
  finished_card_head process uuid +:+
  match video_link with
  | Some link => if String.eqb link "" then video_missing_row else video_row link
  | None => video_missing_row
  end +:+
  finished_card_close.

(** Appending the cards of a bucket to the text built so far. *)
Definition append_cards {A : Type} (card : A → result string) (l : list A)
  (html : string) : result string :=
  for_each (λ html x, c ← card x; Ok (html +:+ c)) l html.

Definition _generate_html_report (categorized : categorized)
  (failed_logs : gmap string log_info) (finished_data : gmap string finished_info)
  (timestamp : datetime.t) : result string :=
  let total_processes :=
    (length (finished categorized) + length (failed categorized) +
     length (running categorized) + length (other categorized))%nat in
  let failed_count := length (failed categorized) in
  let finished_count := length (finished categorized) in
  let running_count := length (running categorized) in
  let html := html_header timestamp total_processes finished_count failed_count
                running_count in
  html ←
    match failed categorized with
    | [] => Ok html
    | _ =>
        html ← append_cards (failed_card failed_logs) (failed categorized)
                 (html +:+ failed_section_open);
        Ok (html +:+ section_close)
    end;
  html ←
    match finished categorized with
    | [] => Ok html
    | _ =>
        html ← append_cards (λ p, Ok (finished_card finished_data p))
                 (finished categorized) (html +:+ finished_section_open);
        Ok (html +:+ section_close)
    end;
  html ←
    match running categorized with
    | [] => Ok html
    | _ =>
        html ← append_cards (λ p, Ok (running_card p)) (running categorized)
                 (html +:+ running_section_open);
        Ok (html +:+ section_close)
    end;
  Ok (html +:+ html_footer).

(** ** [email_report.py]: [_generate_text_report] *)

(** The lines the loop over the failed jobs appends for one job. *)
Definition text_failed_lines (failed_logs : gmap string log_info)
  (process : process) : list string :=
  let log_info := default ∅ (failed_logs !! process_uuid process) in
  [Str.nl +:+ "Client: " +:+ str_or_None (name process);
   "UUID: " +:+ process_uuid process;
   "Status: " +:+ str_or_None (status_name process);
   "Start: " +:+ datetime.str (start_time process)] ++
  (if from_option truthy false (log_info !! "found")
   then ["Log: " +:+ py_str (default (PStr "N/A") (log_info !! "saved_path"))]
   else []).

(** The lines the loop over the finished jobs appends for one job. *)
Definition text_finished_lines (finished_data : gmap string finished_info)
  (process : process) : list string :=
  let video_link := finished_data !! process_uuid process ≫= video_link in
  [Str.nl +:+ "Client: " +:+ str_or_None (name process);
   "UUID: " +:+ process_uuid process;
   "Duration: " +:+ decimal_or_None (elapsed_time_min process) +:+ " min"] ++
  match video_link with
  | Some link => if String.eqb link "" then [] else ["Video: " +:+ link]
  | None => []
  end.

(** The list [lines] before it is joined. *)
Definition text_report_lines (categorized : categorized)
  (failed_logs : gmap string log_info) (finished_data : gmap string finished_info)
  (timestamp : datetime.t) : list string :=
  let total :=
    (length (finished categorized) + length (failed categorized) +
     length (running categorized) + length (other categorized))%nat in
  [Str.times "=" 80;
   "DAILY CLIENT PROCESS REPORT";
   "Generated: " +:+ datetime.strftime_datetime timestamp;
   Str.times "=" 80;
   "";
   "Total Processes: " +:+ Str.of_nat total;
   "  ✅ Finished: " +:+ Str.of_nat (length (finished categorized));
   "  ❌ Failed: " +:+ Str.of_nat (length (failed categorized));
   "  ⏳ Running: " +:+ Str.of_nat (length (running categorized));
   ""] ++
  match failed categorized with
  | [] => []
  | _ =>
      [Str.times "-" 80; "FAILED PROCESSES"; Str.times "-" 80] ++
      concat (text_failed_lines failed_logs <$> failed categorized) ++ [""]
  end ++
  match finished categorized with
  | [] => []
  | _ =>
      [Str.times "-" 80; "FINISHED PROCESSES"; Str.times "-" 80] ++
      concat (text_finished_lines finished_data <$> finished categorized) ++ [""]
  end.

Definition _generate_text_report (categorized : categorized)
  (failed_logs : gmap string log_info) (finished_data : gmap string finished_info)
  (timestamp : datetime.t) : string :=
  Str.join_with Str.nl
    (text_report_lines categorized failed_logs finished_data timestamp).

(** ** [daily_report.py]: the run, up to the rendered report *)

Record DailyReportOrchestrator : Type := mk_DailyReportOrchestrator {
  skip_apikeys : gset string;
  log_retriever : option LogRetriever;
  onedrive_manager : OneDriveManager;
  output_dir : string
}.

(** The part of [run] from the rows the database returned to the HTML
    body of the report, with the files written on the way: the calls of
    [fetch_processes], [process_failed_processes],
    [process_finished_processes] and of the rendering inside
    [generate_and_send_report]. [run] catches every exception of these
    and raises it again. Connecting to the database and the query,
    the authentication and the sending of the mail are not part of this
    definition. *)
Definition run (self : DailyReportOrchestrator) (e : env) (rows : list process)
  (out : outputs) : result (string * outputs) :=
  '(_, categorized) ← fetch_processes (skip_apikeys self) rows;
  '(failed_logs, out) ← process_failed_processes (log_retriever self) e
                          (output_dir self) (failed categorized) out;
  finished_data ←
    process_finished_processes (onedrive_manager self) (finished categorized);
  html ← _generate_html_report categorized failed_logs finished_data
           (now e (clock_reads out));
  Ok (html, out).

(** ** Vocabulary of the statements *)

Inductive bucket : Type := Finished | Failed | Running | Other.

#[global] Instance bucket_eq_dec : EqDecision bucket.
Proof. solve_decision. Defined.

(** The list a bucket names in the result of [categorize_processes]. *)
Definition bucket_list (b : bucket) (c : categorized) : list process :=
  match b with
  | Finished => finished c
  | Failed => failed c
  | Running => running c
  | Other => other c
  end.

(** The rule of the specification for a status text, in its own words:
    case-insensitive occurrence of the patterns, finished before failed
    before running before other. *)
Definition status_rule (s : string) (b : bucket) : Prop :=
  let finish := Str.ci_occurs "finish" s ∨ Str.ci_occurs "complete" s in
  let fail := Str.ci_occurs "fail" s ∨ Str.ci_occurs "error" s in
  let run := Str.ci_occurs "running" s ∨ Str.ci_occurs "processing" s in
  match b with
  | Finished => finish
  | Failed => ¬ finish ∧ fail
  | Running => ¬ finish ∧ ¬ fail ∧ run
  | Other => ¬ finish ∧ ¬ fail ∧ ¬ run
  end.

(** The branch the chain of tests takes for a lowered status. *)
Definition branch_of (status : string) : bucket :=
  if Str.contains "finish" status || Str.contains "complete" status then Finished
  else if Str.contains "fail" status || Str.contains "error" status then Failed
  else if Str.contains "running" status || Str.contains "processing" status then Running
  else Other.

Definition bucket_of (p : process) : option bucket :=
  (λ s, branch_of (Str.lower s)) <$> status_name p.

(** [categorized[b].append(p)] *)
Definition append_to (b : bucket) (p : process) (c : categorized) : categorized :=
  match b with
  | Finished => mk_categorized (finished c ++ [p]) (failed c) (running c) (other c)
  | Failed => mk_categorized (finished c) (failed c ++ [p]) (running c) (other c)
  | Running => mk_categorized (finished c) (failed c) (running c ++ [p]) (other c)
  | Other => mk_categorized (finished c) (failed c) (running c) (other c ++ [p])
  end.

(** A job sits in exactly the bucket [b] of [c]. *)
Definition only_in (b : bucket) (p : process) (c : categorized) : Prop :=
  ∀ b', p ∈ bucket_list b' c ↔ b' = b.

(** The file passes the time check of [find_log_file]. *)
Definition admissible (start_time : datetime.t) (f : Path.t) : Prop :=
  outside_window start_time f = false.

#[global] Instance admissible_dec start_time f : Decision (admissible start_time f).
Proof. unfold admissible. apply _. Defined.

(** The file passes both tests of the loop of [find_log_file]. *)
Definition passes (start_time : datetime.t) (process_uuid : string) (f : Path.t) : Prop :=
  admissible start_time f ∧ _contains_uuid f process_uuid = true.

(** Some line of the file, read as text, has the identifier as a literal
    substring. *)
Definition holds_identifier (process_uuid : string) (f : Path.t) : Prop :=
  ∃ line pre post,
    line ∈ yielded (Path.as_text f) ∧ line = pre +:+ process_uuid +:+ post.

(** The file passes the time check and holds the identifier. *)
Definition matches (start_time : datetime.t) (process_uuid : string) (f : Path.t) : Prop :=
  admissible start_time f ∧ holds_identifier process_uuid f.

(** The last [n] elements of a list, all of it when it is shorter. *)
Definition last_n {A : Type} (n : nat) (l : list A) : list A :=
  drop (length l - n) l.

(** The lines of a summary that count as errors. *)
Definition important (log_lines : list string) : list string :=
  filter (λ line, is_important line = true) log_lines.

Definition error_header (count : nat) : string :=
  "=== Error Summary (" +:+ Str.of_nat count +:+ " error lines found) ==="
  +:+ Str.nl +:+ Str.nl.

Definition tail_header (count : nat) : string :=
  "=== Last " +:+ Str.of_nat count +:+ " log lines ===" +:+ Str.nl +:+ Str.nl.

(** The fields every entry of [get_failed_process_logs] carries. *)
Definition has_fields (info : log_info) : Prop :=
  is_Some (info !! "found") ∧ is_Some (info !! "summary") ∧
  is_Some (info !! "saved_path").

(** [d] lies in the closed interval from [lo] seconds before [t] to [hi]
    seconds after it. *)
Definition within (lo hi : Z) (t d : datetime.t) : Prop :=
  datetime.micros t - datetime.seconds lo ≤ datetime.micros d
  ≤ datetime.micros t + datetime.seconds hi.

(** The time stamp [find_log_file] reads off a file name. *)
Definition log_time (f : Path.t) : option datetime.t :=
  datetime.strptime (Str.split_head "_" (Path.stem f)).

(** The jobs [fetch_processes] keeps. *)
Definition kept (skip_apikeys : gset string) (p : process) : Prop :=
  in_skip skip_apikeys (api_key p) = false.

#[global] Instance kept_dec skip_apikeys p : Decision (kept skip_apikeys p).
Proof. unfold kept. apply _. Defined.

(** The key stands on a line of the skip file, alone but for white space
    around it; it is not empty and does not begin a comment. *)
Definition listed (f : text_file) (key : string) : Prop :=
  ∃ line, line ∈ file_lines f ∧ Str.strip line = key ∧
          key ≠ ""%string ∧ Str.startswith "#" key = false.

(** The folder [find_process_video] asks for. *)
Definition process_folder (self : OneDriveManager) (process_uuid api_key : string)
  : string :=
  onedrive_root self +:+ "/" +:+ api_key +:+ "/" +:+ process_uuid.

(** The address the report links for a finished job, if any: the job has
    an API key that is not empty and the search returns an address that
    is not empty. *)
Definition shown_video (drive : OneDriveManager) (p : process) : option string :=
  key ← api_key p;
  if String.eqb key "" then None
  else
    match find_process_video drive (process_uuid p) key with
    | Ok (Some link) => if String.eqb link "" then None else Some link
    | _ => None
    end.

(** No request for a folder of the drive ends in an exception other
    than [HTTPError]. *)
Definition answers (drive : OneDriveManager) : Prop :=
  ∀ folder e, children drive folder ≠ RequestFailed e.

(** The identifier can be a file name: it holds no slash. *)
Definition plain (u : string) : Prop := Str.contains "/" u = false.

#[global] Instance plain_dec u : Decision (plain u).
Proof. unfold plain. apply _. Defined.

(** The time check as the amended claims word it: the time stamp of the
    name does not parse, or the start time carries a time zone, or the
    time stamp lies between 24 hours before the start time and one hour
    after it. *)
Definition in_window (start_time : datetime.t) (f : Path.t) : Prop :=
  match log_time f with
  | Some lt => datetime.tzinfo start_time = None → within 86400 3600 start_time lt
  | None => True
  end.

#[global] Instance in_window_dec start_time f : Decision (in_window start_time f).
Proof. unfold in_window, within. destruct (log_time f); apply _. Defined.

(** The time check as the specification words it: the time stamp does
    not parse, or it lies between one hour before the start time and 24
    hours after it. *)
Definition stated_admissible (start_time : datetime.t) (f : Path.t) : Prop :=
  match log_time f with
  | Some lt => within 3600 86400 start_time lt
  | None => True
  end.

(** [find_log_file] returns a file for the job. *)
Definition has_log (self : LogRetriever) (p : process) : Prop :=
  is_Some (find_log_file (listing self) (process_uuid p) (start_time p)).

#[global] Instance has_log_dec self p : Decision (has_log self p).
Proof. unfold has_log. apply _. Defined.

(** The entry of the job [u] is one without a saved file, or it names the
    file of [output_dir] that [save_process_log] wrote for [u] at some
    reading of the clock, and that file holds the entry's full log. *)
Definition entry_saved (output_dir : string) (out : outputs) (u : string)
  (info : log_info) : Prop :=
  match info !! "found" with
  | Some (PBool true) =>
      ∃ ts,
        let path := joinpath output_dir
                      (u +:+ "_" +:+ datetime.strftime_compact ts +:+ ".log") in
        info !! "saved_path" = Some (PStr path) ∧
        ∃ log, info !! "full_log" = Some (PStr log) ∧ disk out !! path = Some log
  | _ => info !! "saved_path" = Some PNone
  end.

(** The character of the last decimal digit of [z]. *)
#[local] Abbreviation dch z := (ascii_of_nat (48 + Z.to_nat (z mod 10))).

(** ** Sample data *)

Definition noon : datetime.t := datetime.mk 2026 2 6 12 0 0 0 None.

Definition job (uuid : string) (key status : option string) : process :=
  mk_process (Some "acme"%string) key status noon None (Some 125) None uuid.

Definition job_finished : process := job "job-1" (Some "key-a"%string) (Some "Finished-OK"%string).
Definition job_failed : process := job "job-2" (Some "key-a"%string) (Some "FAILED_TIMEOUT"%string).
Definition job_running : process := job "job-3" (Some "key-b"%string) (Some "Processing"%string).
Definition job_queued : process := job "job-4" None (Some "queued"%string).
Definition job_no_status : process := job "job-5" (Some "key-a"%string) None.

Definition sample_jobs : list process :=
  [job_finished; job_failed; job_running; job_queued].

(** A log file that began at 03:08:14 on the day of [noon] and mentions
    [job-2], and the same log compressed. *)
Definition log_0308 : Path.t :=
  Path.mk "2026-02-06T03-08-14_perception_api.log"
    (mk_reading ["03:09:00 job-2 started" +:+ Str.nl;
                 "03:10:00 job-2 ERROR timeout" +:+ Str.nl] false)
    (mk_reading [] true).

Definition log_0308_gz : Path.t :=
  Path.mk "2026-02-06T03-08-14_perception_api.log.gz"
    (mk_reading [] true)
    (mk_reading ["03:09:00 job-2 started" +:+ Str.nl;
                 "03:10:00 job-2 ERROR timeout" +:+ Str.nl] false).

(** Three logs of that day, of which the last two mention [job-2]. *)
Definition log_A : Path.t :=
  Path.mk "2026-02-06T09-00-00_perception_api.log"
    (mk_reading ["09:01:00 job-1 started" +:+ Str.nl] false) (mk_reading [] true).
Definition log_B : Path.t :=
  Path.mk "2026-02-06T10-00-00_perception_api.log"
    (mk_reading ["10:01:00 job-2 started" +:+ Str.nl] false) (mk_reading [] true).
Definition log_C : Path.t :=
  Path.mk "2026-02-06T11-00-00_perception_api.log"
    (mk_reading ["11:01:00 job-2 failed" +:+ Str.nl] false) (mk_reading [] true).

(** Three extracted lines, two of them with a severity marker. *)
Definition sample_lines : list string :=
  ["10:01 job-2 ERROR disk full" +:+ Str.nl;
   "10:02 job-2 retrying" +:+ Str.nl;
   "10:03 job-2 Traceback follows" +:+ Str.nl].

(** A failed job no log mentions, and a log directory. *)
Definition job_lost : process := job "job-7" (Some "key-a"%string) (Some "Error"%string).

Definition sample_retriever : LogRetriever :=
  mk_LogRetriever "/var/log/perception" [log_C; log_A; log_B].

Definition midnight : datetime.t := datetime.mk 2026 2 7 0 0 0 0 None.

(** A clock that stands still and a disk that takes every file. *)
Definition sample_env : env := mk_env (λ _, midnight) (λ _, true) "/home/reports".

Definition empty_drive : OneDriveManager :=
  mk_OneDriveManager "videos" (λ _, HTTPStatusError).

(** A drive that cannot be reached. *)
Definition unreachable_drive : OneDriveManager :=
  mk_OneDriveManager "videos" (λ _, RequestFailed RequestException).

Definition no_outputs : outputs := mk_outputs ∅ 0.

(** An orchestrator without a log directory that skips the tenant
    [key-b]. *)
Definition sample_orchestrator : DailyReportOrchestrator :=
  mk_DailyReportOrchestrator {["key-b"%string]} None empty_drive "/reports".

(** The same orchestrator with the log directory. *)
Definition sample_orchestrator_logs : DailyReportOrchestrator :=
  mk_DailyReportOrchestrator {["key-b"%string]} (Some sample_retriever)
    empty_drive "/reports".

(** A skip file: a comment, an empty line, the key [key-b] with blanks
    around it, and an indented comment. *)
Definition sample_skip_file : text_file :=
  mk_text_file ["# test tenants" +:+ Str.nl; Str.nl;
                "  key-b  " +:+ Str.nl; "   # key-a" +:+ Str.nl] false.

(** A row without status of the tenant [key-b]. *)
Definition job_no_status_b : process := job "job-6" (Some "key-b"%string) None.

(** A drive with the folder of [job-1]: a text file, a sub-folder with
    the name of a video, and a video. *)
Definition sample_drive : OneDriveManager :=
  mk_OneDriveManager "videos"
    (λ folder,
       if String.eqb folder "videos/key-a/job-1" then
         Listed [mk_drive_item "notes.txt" true (Some "https://drive.example/job-1/notes"%string);
               mk_drive_item "old.mp4" false (Some "https://drive.example/job-1/old"%string);
               mk_drive_item "Clip.MP4" true (Some "https://drive.example/job-1/clip"%string)]
       else HTTPStatusError).

(** A log of that day with a line for [job-2] and a line for [./job-2],
    and the two jobs. *)
Definition log_dot : Path.t :=
  Path.mk "2026-02-06T08-00-00_perception_api.log"
    (mk_reading ["08:01:00 job-2 started" +:+ Str.nl;
                 "08:02:00 ./job-2 failed" +:+ Str.nl] false)
    (mk_reading [] true).

Definition job_dot : process :=
  job "./job-2" (Some "key-a"%string) (Some "failed"%string).

(** A log of that day that cannot be opened. *)
Definition log_unreadable : Path.t :=
  Path.mk "2026-02-06T09-30-00_perception_api.log"
    (mk_reading [] true) (mk_reading [] true).

(* ================================================================= *)
(** * Properties *)
(* ================================================================= *)

(** ** Sanity checks of the string operations *)

Example lower_FAILED : Str.lower "FAILED_Timeout 7" = "failed_timeout 7"%string.
Proof. reflexivity. Qed.

Example contains_mid : Str.contains "fail" "xxfailxx" = true.
Proof. reflexivity. Qed.

Example contains_empty : Str.contains "" "abc" = true.
Proof. reflexivity. Qed.

Example endswith_log : Str.endswith ".log" "a.log" = true ∧ Str.endswith ".log" "a.log.gz" = false.
Proof. split; reflexivity. Qed.

Example split_head_ts :
  Str.split_head "_" "2026-02-06T03-08-14_perception_api" = "2026-02-06T03-08-14"%string.
Proof. reflexivity. Qed.

Example rfind_dot : Str.rfind "." "a.log.gz" = Some 5%nat ∧ Str.rfind "." "abc" = None.
Proof. split; reflexivity. Qed.

Example of_nat_120 : Str.of_nat 120 = "120"%string ∧ Str.of_nat 0 = "0"%string.
Proof. split; reflexivity. Qed.

Example pad_fields : Str.pad2 7 = "07"%string ∧ Str.pad4 2026 = "2026"%string ∧ Str.pad6 42 = "000042"%string.
Proof. repeat split; reflexivity. Qed.

Example strptime_ok :
  datetime.strptime "2026-02-06T03-08-14" = Some (datetime.mk 2026 2 6 3 8 14 0 None).
Proof. reflexivity. Qed.

Example strptime_bad :
  datetime.strptime "2026-02-30T03-08-14" = None ∧
  datetime.strptime "2026-02-06T03-08-60" = None ∧
  datetime.strptime "2026-02-06T03-08-14x" = None ∧
  datetime.strptime "2026-02-06T" = None ∧
  datetime.strptime "2026-02-06T24-00-00" = None.
Proof. repeat split; reflexivity. Qed.

Example strptime_short_fields :
  datetime.strptime "2026-2-6t3-8-4" = Some (datetime.mk 2026 2 6 3 8 4 0 None).
Proof. reflexivity. Qed.

Example ordinal_epoch : datetime.ymd2ord 1970 1 1 = 719163 ∧ datetime.ymd2ord 1 1 1 = 1.
Proof. split; reflexivity. Qed.

Example str_datetime :
  datetime.str (datetime.mk 2026 2 6 3 8 14 0 None) = "2026-02-06 03:08:14"%string ∧
  datetime.str (datetime.mk 2026 2 6 3 8 14 250 (Some (-330))) = "2026-02-06 03:08:14.000250-05:30"%string.
Proof. split; reflexivity. Qed.

(** ** Strings: occurrence and letter case *)

#[local] Arguments String.append : simpl nomatch.
#[local] Arguments Str.startswith : simpl never.

Section strings.
Implicit Types s p sub pat pre post : string.

Lemma str_app_assoc s p sub : (s +:+ p) +:+ sub = s +:+ (p +:+ sub).
Proof. induction s as [|c s IH]; simpl; [done | by rewrite IH]. Qed.

Lemma startswith_app p s : Str.startswith p (p +:+ s) = true.
Proof.
  unfold Str.startswith. induction p as [|c p IH]; simpl.
  - by destruct s.
  - destruct (Ascii.ascii_dec c c); [apply IH | done].
Qed.

Lemma startswith_inv p s : Str.startswith p s = true → ∃ post, s = p +:+ post.
Proof.
  unfold Str.startswith. revert s. induction p as [|c p IH]; intros s H.
  - by exists s.
  - destruct s as [|d s]; simpl in H; [done|].
    destruct (Ascii.ascii_dec c d) as [->|]; [|done].
    destruct (IH _ H) as [post ->]. by exists post.
Qed.

Lemma contains_iff sub s :
  Str.contains sub s = true ↔ ∃ pre post, s = pre +:+ sub +:+ post.
Proof.
  split.
  - induction s as [|c s IH]; simpl; intros H.
    + apply orb_true_iff in H as [H|H]; [|done].
      apply startswith_inv in H as [post ->]. by exists ""%string, post.
    + apply orb_true_iff in H as [H|H].
      * apply startswith_inv in H as [post ->]. by exists ""%string, post.
      * destruct (IH H) as (pre & post & ->). by exists (String c pre), post.
  - intros (pre & post & ->). induction pre as [|c pre IH]; simpl.
    + assert (Str.startswith sub (sub +:+ post) = true) as Hs
        by apply startswith_app.
      destruct (sub +:+ post); simpl; by rewrite Hs.
    + rewrite IH. apply orb_true_r.
Qed.

Lemma lower_app s p : Str.lower (s +:+ p) = Str.lower s +:+ Str.lower p.
Proof. induction s as [|c s IH]; simpl; [done | by rewrite IH]. Qed.

Lemma lower_app_inv s pre post :
  Str.lower s = pre +:+ post →
  ∃ a b, s = a +:+ b ∧ Str.lower a = pre ∧ Str.lower b = post.
Proof.
  revert s. induction pre as [|c pre IH]; intros s H.
  - by exists ""%string, s.
  - destruct s as [|d s]; simpl in H; [done|]. injection H as Hc Hs.
    destruct (IH _ Hs) as (a & b & -> & Ha & Hb).
    exists (String d a), b. simpl. by rewrite Hc, Ha.
Qed.

(** The test of the code, [pat.lower() in s.lower()], is case-insensitive
    occurrence. *)
Lemma ci_occurs_iff pat s :
  Str.ci_occurs pat s ↔ Str.contains (Str.lower pat) (Str.lower s) = true.
Proof.
  rewrite contains_iff. split.
  - intros (pre & mid & post & -> & Hmid).
    exists (Str.lower pre), (Str.lower post).
    by rewrite !lower_app, Hmid.
  - intros (x & y & H).
    apply lower_app_inv in H as (a & b & -> & _ & H).
    apply lower_app_inv in H as (mid & c & -> & Hmid & _).
    by exists a, mid, c.
Qed.

End strings.

(** ** [categorize_processes] *)

Lemma categorize_body_branch c p s :
  status_name p = Some s →
  categorize_body c p = Ok (append_to (branch_of (Str.lower s)) p c).
Proof.
  intros H. unfold categorize_body, branch_of. rewrite H.
  repeat (destruct (_ || _); [done|]). done.
Qed.

Lemma bucket_list_append_to b b' p c :
  bucket_list b' (append_to b p c) =
  bucket_list b' c ++ (if decide (b' = b) then [p] else []).
Proof. destruct b, b'; simpl; by rewrite ?app_nil_r. Qed.

(** The loop appends every job to the list of its branch and to no other:
    each list of the result is the start value followed by the jobs of
    that branch, in the order of the input. *)
Lemma for_each_categorize ps : ∀ c0 c,
  for_each categorize_body ps c0 = Ok c →
  Forall (λ p, is_Some (status_name p)) ps ∧
  ∀ b, bucket_list b c =
       bucket_list b c0 ++ filter (λ p, bucket_of p = Some b) ps.
Proof.
  induction ps as [|p ps IH]; intros c0 c H; simpl in H.
  - injection H as <-. split; [constructor|]. intros b. by rewrite app_nil_r.
  - destruct (status_name p) as [s|] eqn:Hs.
    + rewrite (categorize_body_branch _ _ _ Hs) in H. simpl in H.
      destruct (IH _ _ H) as [Hall Hb]. split.
      * constructor; [by rewrite Hs|done].
      * intros b. rewrite Hb, filter_cons, bucket_list_append_to.
        assert (bucket_of p = Some (branch_of (Str.lower s))) as ->
          by (unfold bucket_of; by rewrite Hs).
        repeat case_decide; simplify_eq; by rewrite <- ?app_assoc, ?app_nil_r.
    + unfold categorize_body in H. by rewrite Hs in H.
Qed.

Lemma for_each_categorize_total ps : ∀ c0,
  Forall (λ p, is_Some (status_name p)) ps →
  ∃ c, for_each categorize_body ps c0 = Ok c.
Proof.
  induction ps as [|p ps IH]; intros c0 H; simpl.
  - by eexists.
  - inversion H as [|? ? [s Hs] Hps]; subst.
    rewrite (categorize_body_branch _ _ _ Hs). simpl. by apply IH.
Qed.

Lemma for_each_categorize_raise ps : ∀ c0 e,
  for_each categorize_body ps c0 = Raise e →
  e = AttributeError ∧ Exists (λ p, status_name p = None) ps.
Proof.
  induction ps as [|p ps IH]; intros c0 e H; simpl in H; [done|].
  destruct (status_name p) as [s|] eqn:Hs.
  - rewrite (categorize_body_branch _ _ _ Hs) in H. simpl in H.
    destruct (IH _ _ H) as [-> Hex]. split; [done|]. by apply Exists_cons_tl.
  - unfold categorize_body in H. rewrite Hs in H. simpl in H.
    injection H as <-. split; [done|]. by apply Exists_cons_hd.
Qed.

Lemma categorize_processes_lists ps c :
  categorize_processes ps = Ok c →
  ∀ b, bucket_list b c = filter (λ p, bucket_of p = Some b) ps.
Proof.
  intros H b. apply for_each_categorize in H as [_ H]. rewrite H. by destruct b.
Qed.

Lemma categorize_processes_elem_of ps c p b :
  categorize_processes ps = Ok c →
  p ∈ bucket_list b c ↔ bucket_of p = Some b ∧ p ∈ ps.
Proof.
  intros H. by rewrite (categorize_processes_lists _ _ H), list_elem_of_filter.
Qed.

Lemma filter_buckets_Permutation ps :
  Forall (λ p, is_Some (status_name p)) ps →
  filter (λ p, bucket_of p = Some Finished) ps ++
  filter (λ p, bucket_of p = Some Failed) ps ++
  filter (λ p, bucket_of p = Some Running) ps ++
  filter (λ p, bucket_of p = Some Other) ps ≡ₚ ps.
Proof.
  induction 1 as [|p ps [s Hs] _ IH]; [done|].
  assert (bucket_of p = Some (branch_of (Str.lower s))) as Hb
    by (unfold bucket_of; by rewrite Hs).
  rewrite !filter_cons, Hb.
  destruct (branch_of (Str.lower s)); repeat case_decide; simplify_eq; simpl;
    rewrite <- ?Permutation_middle; by constructor.
Qed.

(** The rule in the words of the specification picks the branch the code
    takes. *)
Lemma status_rule_branch s b : status_rule s b ↔ branch_of (Str.lower s) = b.
Proof.
  assert (∀ pat, Str.lower pat = pat →
            Str.ci_occurs pat s ↔ Str.contains pat (Str.lower s) = true) as Hci
    by (intros pat Hp; by rewrite ci_occurs_iff, Hp).
  pose proof (Hci "finish"%string eq_refl). pose proof (Hci "complete"%string eq_refl).
  pose proof (Hci "fail"%string eq_refl). pose proof (Hci "error"%string eq_refl).
  pose proof (Hci "running"%string eq_refl). pose proof (Hci "processing"%string eq_refl).
  clear Hci. unfold status_rule, branch_of. cbv zeta.
  destruct (Str.contains "finish" (Str.lower s)),
           (Str.contains "complete" (Str.lower s)),
           (Str.contains "fail" (Str.lower s)),
           (Str.contains "error" (Str.lower s)),
           (Str.contains "running" (Str.lower s)),
           (Str.contains "processing" (Str.lower s));
    destruct b; simpl; intuition congruence.
Qed.

(** C3, as the specification states it, fails: a job whose status is
    missing is not placed in the [other] bucket, the call raises
    [AttributeError]. *)
Lemma categorize_processes_missing_status_raises :
  categorize_processes [job_no_status] = Raise AttributeError ∧
  ¬ ∃ c, categorize_processes [job_no_status] = Ok c ∧ job_no_status ∈ other c.
Proof. split; [reflexivity|]. by intros (c & H & _). Qed.

(** C3, amended: [categorize_processes] returns the buckets exactly when
    every job has a status text; it raises exactly when the status of some
    job is missing, and the exception is [AttributeError]. *)
Theorem categorize_processes_raises_iff (ps : list process) :
  ((∃ c, categorize_processes ps = Ok c) ↔
     Forall (λ p, is_Some (status_name p)) ps) ∧
  (categorize_processes ps = Raise AttributeError ↔
     Exists (λ p, status_name p = None) ps) ∧
  (∀ e, categorize_processes ps = Raise e → e = AttributeError).
Proof.
  split; [|split].
  - split.
    + intros [c H]. by apply for_each_categorize in H as [H _].
    + apply for_each_categorize_total.
  - split.
    + intros H. by apply for_each_categorize_raise in H as [_ H].
    + intros Hex. destruct (categorize_processes ps) as [c|e] eqn:H.
      * apply for_each_categorize in H as [Hall _].
        apply Exists_exists in Hex as (p & Hp & Hnone).
        rewrite Forall_forall in Hall. specialize (Hall p Hp).
        rewrite Hnone in Hall. by destruct Hall.
      * by apply for_each_categorize_raise in H as [-> _].
  - intros e H. by apply for_each_categorize_raise in H as [-> _].
Qed.

Lemma categorize_processes_raises_iff_witness :
  Exists (λ p, status_name p = None) [job_finished; job_no_status; job_failed] ∧
  categorize_processes [job_finished; job_no_status; job_failed] = Raise AttributeError ∧
  Forall (λ p, is_Some (status_name p)) sample_jobs ∧
  ∃ c, categorize_processes sample_jobs = Ok c.
Proof.
  assert (Exists (λ p, status_name p = None) [job_finished; job_no_status; job_failed])
    as Hex by (apply Exists_cons_tl, Exists_cons_hd; reflexivity).
  assert (Forall (λ p, is_Some (status_name p)) sample_jobs) as Hall
    by (repeat constructor; by eexists).
  split; [exact Hex|]. split.
  - exact (proj2 (proj1 (proj2 (categorize_processes_raises_iff
                                  [job_finished; job_no_status; job_failed]))) Hex).
  - split; [exact Hall|].
    exact (proj2 (proj1 (categorize_processes_raises_iff sample_jobs)) Hall).
Defined.

(** C4, as the specification states it for every list, fails: for a
    list with a job whose status is missing the call returns no buckets,
    so the finished job of the list is in none. *)
Lemma categorize_processes_no_partition :
  job_finished ∈ [job_finished; job_no_status] ∧
  categorize_processes [job_finished; job_no_status] = Raise AttributeError ∧
  ¬ ∃ c, categorize_processes [job_finished; job_no_status] = Ok c.
Proof.
  split; [apply list_elem_of_here|]. split; [reflexivity|]. by intros [c H].
Qed.

(** C4, amended: for a list of job records, each with its status text,
    [categorize_processes] returns four buckets that partition the input:
    together they are a rearrangement of the input, each bucket keeps the
    order of the input, and every job of the input is in exactly one
    bucket. *)
Theorem categorize_processes_partition (ps : list process) :
  Forall (λ p, is_Some (status_name p)) ps →
  ∃ c, categorize_processes ps = Ok c ∧
       finished c ++ failed c ++ running c ++ other c ≡ₚ ps ∧
       (∀ b, bucket_list b c `sublist_of` ps) ∧
       (∀ b p, p ∈ bucket_list b c → p ∈ ps) ∧
       (∀ p, p ∈ ps → ∃ b, only_in b p c).
Proof.
  intros Hall. destruct (for_each_categorize_total ps (mk_categorized [] [] [] []) Hall)
    as [c Hc]. exists c. split; [done|].
  pose proof (categorize_processes_lists _ _ Hc) as Hl.
  split; [|split; [|split]].
  - pose proof (filter_buckets_Permutation ps Hall) as HP.
    by rewrite <- (Hl Finished), <- (Hl Failed), <- (Hl Running), <- (Hl Other) in HP.
  - intros b. rewrite Hl. apply sublist_filter.
  - intros b p Hp. by apply (categorize_processes_elem_of _ _ _ _ Hc) in Hp as [_ Hp].
  - intros p Hp. rewrite Forall_forall in Hall. destruct (Hall p Hp) as [s Hs].
    exists (branch_of (Str.lower s)). intros b'.
    rewrite (categorize_processes_elem_of _ _ _ _ Hc).
    unfold bucket_of. rewrite Hs. simpl.
    split; [by intros [[= ->] _] | by intros ->].
Qed.

Lemma categorize_processes_partition_witness :
  Forall (λ p, is_Some (status_name p)) sample_jobs ∧
  ∃ c, categorize_processes sample_jobs = Ok c ∧
       finished c ++ failed c ++ running c ++ other c ≡ₚ sample_jobs ∧
       (∀ b, bucket_list b c `sublist_of` sample_jobs) ∧
       (∀ b p, p ∈ bucket_list b c → p ∈ sample_jobs) ∧
       (∀ p, p ∈ sample_jobs → ∃ b, only_in b p c).
Proof.
  assert (Forall (λ p, is_Some (status_name p)) sample_jobs) as H
    by (repeat constructor; by eexists).
  split; [exact H | exact (categorize_processes_partition sample_jobs H)].
Defined.

(** C5: the bucket of a job follows the rule of the specification: its
    status text is matched without regard to letter case against
    "finish"/"complete", then "fail"/"error", then "running"/"processing",
    and the first group that occurs names the bucket; [other] when none
    occurs. *)
Theorem categorize_processes_rule (ps : list process) (c : categorized)
  (p : process) (s : string) :
  categorize_processes ps = Ok c →
  p ∈ ps →
  status_name p = Some s →
  ∀ b, status_rule s b ↔ p ∈ bucket_list b c.
Proof.
  intros Hc Hp Hs b.
  rewrite status_rule_branch, (categorize_processes_elem_of _ _ _ _ Hc).
  unfold bucket_of. rewrite Hs. simpl.
  split; [by intros -> | by intros [[= ->] _]].
Qed.

Lemma categorize_processes_rule_witness :
  categorize_processes sample_jobs
    = Ok (mk_categorized [job_finished] [job_failed] [job_running] [job_queued]) ∧
  job_failed ∈ sample_jobs ∧
  status_name job_failed = Some "FAILED_TIMEOUT"%string ∧
  ∀ b, status_rule "FAILED_TIMEOUT" b ↔
       job_failed ∈ bucket_list b
         (mk_categorized [job_finished] [job_failed] [job_running] [job_queued]).
Proof.
  assert (job_failed ∈ sample_jobs) as Hin by (apply list_elem_of_In; simpl; tauto).
  split; [reflexivity|]. split; [exact Hin|]. split; [reflexivity|].
  exact (categorize_processes_rule sample_jobs _ job_failed "FAILED_TIMEOUT"
           eq_refl Hin eq_refl).
Defined.

(** The examples of the specification, and a status that matches two
    groups. *)
Example categorize_examples :
  branch_of (Str.lower "FAILED_TIMEOUT") = Failed ∧
  branch_of (Str.lower "Finished-OK") = Finished ∧
  branch_of (Str.lower "queued") = Other ∧
  branch_of (Str.lower "running, then failed") = Failed ∧
  branch_of (Str.lower "Failed to complete") = Finished.
Proof. repeat split; reflexivity. Qed.

(** ** [fetch_processes]: the skip set *)

Lemma kept_empty (p : process) : kept ∅ p.
Proof. unfold kept, in_skip. by destruct (api_key p). Qed.

(** Whether or not the filter runs, the jobs that go on are the kept
    ones. *)
Lemma fetch_processes_filter skip rows :
  fetch_processes skip rows =
    (c ← categorize_processes (filter (kept skip) rows);
     Ok (filter (kept skip) rows, c)).
Proof.
  unfold fetch_processes. case_bool_decide as Hskip; [done|].
  subst skip.
  assert (filter (kept ∅) rows = rows) as ->; [|done].
  induction rows as [|p rows IH]; [done|].
  rewrite filter_cons_True by apply kept_empty. by rewrite IH.
Qed.

Lemma not_kept skip p k : api_key p = Some k → k ∈ skip → ¬ kept skip p.
Proof.
  intros Hk Hin. unfold kept, in_skip. rewrite Hk.
  by rewrite bool_decide_eq_true_2.
Qed.

(** Without a skip set every job goes on to the classification. *)
Lemma fetch_processes_no_skip rows all c :
  fetch_processes ∅ rows = Ok (all, c) → all = rows.
Proof.
  unfold fetch_processes. rewrite bool_decide_eq_false_2 by (by intros []).
  destruct (categorize_processes rows); [|done]. by intros [= <- _].
Qed.

(** C8: a job whose API key is in the skip set is removed before the
    classification: the jobs are fetched and classified as if the
    database had not returned it, it is in none of the buckets, and the
    report of the run is the report without it. *)
Theorem skipped_job_absent (self : DailyReportOrchestrator) (e : env)
  (rows1 rows2 : list process) (out : outputs) (p : process) (k : string) :
  api_key p = Some k →
  k ∈ skip_apikeys self →
  fetch_processes (skip_apikeys self) (rows1 ++ p :: rows2)
    = fetch_processes (skip_apikeys self) (rows1 ++ rows2) ∧
  (∀ all c, fetch_processes (skip_apikeys self) (rows1 ++ p :: rows2) = Ok (all, c) →
            (p ∉ all) ∧ (∀ b, p ∉ bucket_list b c)) ∧
  run self e (rows1 ++ p :: rows2) out = run self e (rows1 ++ rows2) out.
Proof.
  intros Hk Hin. pose proof (not_kept _ _ _ Hk Hin) as Hnot.
  assert (filter (kept (skip_apikeys self)) (rows1 ++ p :: rows2)
          = filter (kept (skip_apikeys self)) (rows1 ++ rows2)) as Hfilter
    by (by rewrite !filter_app, filter_cons_False).
  assert (fetch_processes (skip_apikeys self) (rows1 ++ p :: rows2)
          = fetch_processes (skip_apikeys self) (rows1 ++ rows2)) as Hfetch
    by (by rewrite !fetch_processes_filter, Hfilter).
  split; [done|]. split.
  - intros all c H. rewrite fetch_processes_filter in H.
    destruct (categorize_processes _) as [c'|] eqn:Hc; [|done].
    injection H as <- <-.
    assert (p ∉ filter (kept (skip_apikeys self)) (rows1 ++ p :: rows2)) as Hall
      by (rewrite list_elem_of_filter; tauto).
    split; [done|]. intros b Hb.
    apply (categorize_processes_elem_of _ _ _ _ Hc) in Hb as [_ Hb]. done.
  - unfold run. by rewrite Hfetch.
Qed.

Lemma skipped_job_absent_witness :
  api_key job_running = Some "key-b"%string ∧
  ("key-b" : string) ∈ skip_apikeys sample_orchestrator ∧
  fetch_processes (skip_apikeys sample_orchestrator)
      ([job_finished; job_failed] ++ job_running :: [job_queued])
    = fetch_processes (skip_apikeys sample_orchestrator)
        ([job_finished; job_failed] ++ [job_queued]) ∧
  (∀ all c,
     fetch_processes (skip_apikeys sample_orchestrator)
       ([job_finished; job_failed] ++ job_running :: [job_queued]) = Ok (all, c) →
     (job_running ∉ all) ∧ (∀ b, job_running ∉ bucket_list b c)) ∧
  run sample_orchestrator sample_env
      ([job_finished; job_failed] ++ job_running :: [job_queued]) no_outputs
    = run sample_orchestrator sample_env
        ([job_finished; job_failed] ++ [job_queued]) no_outputs.
Proof.
  assert (("key-b" : string) ∈ skip_apikeys sample_orchestrator) as Hin
    by (by vm_compute).
  split; [reflexivity|]. split; [exact Hin|].
  exact (skipped_job_absent sample_orchestrator sample_env [job_finished; job_failed]
           [job_queued] no_outputs job_running "key-b" eq_refl Hin).
Defined.

(** ** File names *)

Lemma str_length_app (s p : string) :
  String.length (s +:+ p) = (String.length s + String.length p)%nat.
Proof. induction s as [|c s IH]; simpl; [done | by rewrite IH]. Qed.

Lemma str_take_drop (n : nat) (s : string) : Str.take n s +:+ Str.drop n s = s.
Proof.
  revert s. induction n as [|n IH]; intros [|c s]; simpl; try done.
  by rewrite IH.
Qed.

Lemma str_drop_app (s p : string) (n : nat) :
  Str.drop (String.length s + n) (s +:+ p) = Str.drop n p.
Proof. induction s as [|c s IH]; simpl; [done | by rewrite IH]. Qed.

Lemma endswith_inv (p s : string) :
  Str.endswith p s = true → ∃ pre, s = pre +:+ p.
Proof.
  unfold Str.endswith. intros [_ H%String.eqb_eq]%andb_true_iff.
  remember (String.length s - String.length p)%nat as n.
  exists (Str.take n s). rewrite <- H. by rewrite str_take_drop.
Qed.

Lemma rfind_log (pre : string) :
  Str.rfind "." (pre +:+ "_perception_api.log")
  = Some (String.length pre + 15)%nat.
Proof. induction pre as [|c pre IH]; simpl; [done | by rewrite IH]. Qed.

(** A name that matches the pattern of [find_log_file] has the suffix
    [.log]: the branch of [_contains_uuid] and [extract_process_logs] for
    [.gz] is never taken for a file [find_log_file] considers. *)
Lemma candidates_suffix (files : list Path.t) (start : datetime.t) (f : Path.t) :
  f ∈ candidates files start → Path.suffix f = ".log"%string.
Proof.
  unfold candidates, glob. rewrite merge_sort_Permutation, list_elem_of_filter.
  intros [Hm _]. unfold glob_match in Hm.
  apply andb_true_iff in Hm as [[_ Hend]%andb_true_iff _].
  apply endswith_inv in Hend as [pre Hname].
  unfold Path.suffix. rewrite Hname, rfind_log, str_length_app. simpl String.length.
  replace ((0 <? String.length pre + 15)%nat
           && (String.length pre + 15 <? String.length pre + 19 - 1)%nat) with true
    by (symmetry; apply andb_true_iff; split; apply Nat.ltb_lt; lia).
  by rewrite str_drop_app.
Qed.

(** ** [find_log_file] *)

Lemma find_log_file_loop_Some uuid start files : ∀ opened f,
  find_log_file_loop uuid start files = (opened, Some f) →
  ∃ pre post,
    files = pre ++ f :: post ∧
    passes start uuid f ∧
    Forall (λ g, ¬ passes start uuid g) pre ∧
    opened = filter (admissible start) pre ++ [f].
Proof.
  induction files as [|g rest IH]; intros opened f H; simpl in H; [done|].
  destruct (outside_window start g) eqn:Hw.
  - destruct (IH _ _ H) as (pre & post & -> & Hm & Hpre & ->).
    exists (g :: pre), post. split; [done|]. split; [done|]. split.
    + constructor; [|done]. intros [Ha _]. unfold admissible in Ha. congruence.
    + rewrite filter_cons_False; [done|]. unfold admissible. congruence.
  - destruct (_contains_uuid g uuid) eqn:Hc.
    + injection H as <- <-. exists [], rest. by repeat split.
    + destruct (find_log_file_loop uuid start rest) as [opened' r'] eqn:Hr.
      injection H as <- ->.
      destruct (IH _ _ eq_refl) as (pre & post & -> & Hm & Hpre & ->).
      exists (g :: pre), post. split; [done|]. split; [done|]. split.
      * constructor; [|done]. intros [_ Hg]. congruence.
      * by rewrite filter_cons_True.
Qed.

Lemma find_log_file_loop_None uuid start files : ∀ opened,
  find_log_file_loop uuid start files = (opened, None) →
  Forall (λ g, ¬ passes start uuid g) files ∧
  opened = filter (admissible start) files.
Proof.
  induction files as [|g rest IH]; intros opened H; simpl in H.
  - by injection H as <-.
  - destruct (outside_window start g) eqn:Hw.
    + destruct (IH _ H) as [Hrest ->]. split.
      * constructor; [|done]. intros [Ha _]. unfold admissible in Ha. congruence.
      * rewrite filter_cons_False; [done|]. unfold admissible. congruence.
    + destruct (_contains_uuid g uuid) eqn:Hc; [done|].
      destruct (find_log_file_loop uuid start rest) as [opened' r'] eqn:Hr.
      injection H as <- ->. destruct (IH _ eq_refl) as [Hrest ->]. split.
      * constructor; [|done]. intros [_ Hg]. congruence.
      * by rewrite filter_cons_True.
Qed.

(** The file [find_log_file] returns passes the time check and holds the
    identifier. *)
Lemma find_log_file_passes files uuid start f :
  find_log_file files uuid start = Some f →
  f ∈ candidates files start ∧ passes start uuid f.
Proof.
  unfold find_log_file, find_log_file_run.
  destruct (find_log_file_loop _ _ _) as [opened r] eqn:H. simpl. intros ->.
  apply find_log_file_loop_Some in H as (pre & post & -> & Hm & _).
  split; [|done]. apply elem_of_app. right. apply list_elem_of_here.
Qed.

(** For a file [find_log_file] considers, the test of the loop is the
    test in words: some line of the text has the identifier as a
    substring. *)
Lemma contains_uuid_candidate files start uuid g :
  g ∈ candidates files start →
  _contains_uuid g uuid = true ↔ holds_identifier uuid g.
Proof.
  intros Hg. unfold _contains_uuid, holds_identifier.
  rewrite (candidates_suffix _ _ _ Hg). simpl. rewrite existsb_exists. split.
  - intros (line & Hin%list_elem_of_In & (pre & post & ->)%contains_iff).
    by exists (pre +:+ uuid +:+ post)%string, pre, post.
  - intros (line & pre & post & Hin%list_elem_of_In & ->).
    exists (pre +:+ uuid +:+ post)%string. split; [done|].
    apply contains_iff. by exists pre, post.
Qed.

Lemma passes_matches files start uuid g :
  g ∈ candidates files start → passes start uuid g ↔ matches start uuid g.
Proof.
  intros Hg. unfold passes, matches.
  by rewrite (contains_uuid_candidate _ _ _ _ Hg).
Qed.

(** The example of the specification: of [A], [B], [C] in a directory
    listed in any order, where [B] and [C] hold the identifier, the result
    is [B] and [C] is not opened; where only [C] holds it, the result is
    [C]. *)
Example find_log_file_ABC :
  find_log_file_run [log_C; log_A; log_B] "job-2" noon = ([log_A; log_B], Some log_B) ∧
  find_log_file_run [log_C; log_A; log_B] "11:01:00" noon
    = ([log_A; log_B; log_C], Some log_C) ∧
  find_log_file_run [log_C; log_A; log_B] "job-9" noon = ([log_A; log_B; log_C], None).
Proof. repeat split; vm_compute; reflexivity. Qed.

(** ** The time window of [find_log_file] *)

Lemma strptime_naive s d : datetime.strptime s = Some d → datetime.tzinfo d = None.
Proof.
  unfold datetime.strptime. intros H.
  repeat (simplify_option_eq;
          repeat match goal with
                 | H : context [let '(_, _) := ?x in _] |- _ => destruct x
                 | H : context [if ?b then _ else _] |- _ => destruct b
                 end).
  done.
Qed.

(** For a naive start time and a file name that parses, the time check
    lets the file through exactly when the log began at most 24 hours
    before the start time and at most one hour after it. *)
Lemma admissible_window start f lt :
  datetime.tzinfo start = None →
  log_time f = Some lt →
  admissible start f ↔ within 86400 3600 start lt.
Proof.
  intros Hstart Hlt. pose proof (strptime_naive _ _ Hlt) as Hnaive.
  unfold admissible, outside_window. unfold log_time in Hlt. rewrite Hlt.
  unfold datetime.sub. rewrite Hstart, Hnaive.
  unfold datetime.total_seconds_lt, datetime.total_seconds_gt, within, datetime.seconds.
  rewrite orb_false_iff, !Z.ltb_ge. lia.
Qed.

(** A file name that does not parse, and a start time with a time zone,
    leave the time check without effect. *)
Lemma admissible_unparsed start f : log_time f = None → admissible start f.
Proof. unfold admissible, outside_window, log_time. by intros ->. Qed.

Lemma admissible_aware start f : datetime.tzinfo start ≠ None → admissible start f.
Proof.
  intros Haware. unfold admissible, outside_window.
  destruct (datetime.strptime _) as [lt|] eqn:Hlt; [|done].
  unfold datetime.sub. rewrite (strptime_naive _ _ Hlt).
  by destruct (datetime.tzinfo start).
Qed.

(** C1, as the specification states it, fails: the log that began at
    03:08:14 is returned for a job that started at 12:00:00 of the same
    day, and 03:08:14 is not within one hour before and 24 hours after
    12:00:00. *)
Lemma find_log_file_outside_stated_window :
  find_log_file [log_0308] "job-2" noon = Some log_0308 ∧
  log_time log_0308 = Some (datetime.mk 2026 2 6 3 8 14 0 None) ∧
  ¬ within 3600 86400 noon (datetime.mk 2026 2 6 3 8 14 0 None).
Proof.
  split; [by vm_compute|]. split; [by vm_compute|].
  unfold within. vm_compute. intros [H _]. by apply H.
Qed.

(** C1, amended: for a start time without time zone, [find_log_file]
    never returns a file whose name parses to a time outside the window
    from 24 hours before the start time to one hour after it; a file
    whose name does not parse passes the time check. *)
Theorem find_log_file_window (files : list Path.t) (uuid : string)
  (start : datetime.t) (f : Path.t) (lt : datetime.t) :
  datetime.tzinfo start = None →
  find_log_file files uuid start = Some f →
  log_time f = Some lt →
  within 86400 3600 start lt ∧
  (∀ g, log_time g = None → admissible start g).
Proof.
  intros Hstart Hfind Hlt. split; [|intros g; apply admissible_unparsed].
  apply find_log_file_passes in Hfind as [_ [Hadm _]].
  by apply (admissible_window start f lt Hstart Hlt).
Qed.

Lemma find_log_file_window_witness :
  datetime.tzinfo noon = None ∧
  find_log_file [log_0308] "job-2" noon = Some log_0308 ∧
  log_time log_0308 = Some (datetime.mk 2026 2 6 3 8 14 0 None) ∧
  within 86400 3600 noon (datetime.mk 2026 2 6 3 8 14 0 None) ∧
  (∀ g, log_time g = None → admissible noon g).
Proof.
  split; [reflexivity|]. split; [by vm_compute|]. split; [by vm_compute|].
  apply (find_log_file_window [log_0308] "job-2" noon log_0308); by vm_compute.
Defined.

(** ** The first match of [find_log_file] *)

(** The time check of the code is the window of the amended claims. *)
Lemma admissible_in_window (start : datetime.t) (f : Path.t) :
  admissible start f ↔ in_window start f.
Proof.
  unfold in_window. destruct (log_time f) as [lt|] eqn:Hlt.
  - destruct (datetime.tzinfo start) as [off|] eqn:Htz.
    + split; [done|]. intros _. apply admissible_aware. by rewrite Htz.
    + rewrite (admissible_window _ _ _ Htz Hlt). split; [by intros|].
      intros H. by apply H.
  - split; [done|]. intros _. by apply admissible_unparsed.
Qed.

(** C6, as the specification states it, fails: the only candidate began
    at 03:08:14, more than one hour before the job started at 12:00:00,
    so no candidate is admissible in the words of the specification and
    the result would be empty; [find_log_file] returns that candidate. *)
Lemma find_log_file_first_stated_admissible :
  candidates [log_0308] noon = [log_0308] ∧
  ¬ stated_admissible noon log_0308 ∧
  find_log_file [log_0308] "job-2" noon = Some log_0308.
Proof.
  split; [by vm_compute|]. split; [|by vm_compute].
  unfold stated_admissible.
  assert (log_time log_0308 = Some (datetime.mk 2026 2 6 3 8 14 0 None)) as ->
    by (by vm_compute).
  unfold within. vm_compute. intros [H _]. by apply H.
Qed.

(** C6, amended: [find_log_file] visits the files of the day in ascending
    order of their names. It returns the first one that is admissible
    (its time stamp does not parse, or the start time carries a time
    zone, or the time stamp lies between 24 hours before the start time
    and one hour after it) and holds the identifier as a substring of
    one of its lines; the files it opened are the admissible ones before
    it, and that file; nothing after it is opened. When no admissible
    file holds the identifier, it returns nothing. *)
Theorem find_log_file_first_match (files : list Path.t) (uuid : string)
  (start : datetime.t) :
  let cs := candidates files start in
  let hit g := in_window start g ∧ holds_identifier uuid g in
  StronglySorted Path.le cs ∧
  cs ≡ₚ glob files (datetime.strftime_date start) ∧
  match find_log_file files uuid start with
  | Some f =>
      ∃ pre post,
        cs = pre ++ f :: post ∧
        hit f ∧
        Forall (λ g, ¬ hit g) pre ∧
        find_log_file_opened files uuid start = filter (in_window start) pre ++ [f]
  | None =>
      Forall (λ g, ¬ hit g) cs ∧
      find_log_file_opened files uuid start = filter (in_window start) cs
  end.
Proof.
  intros cs hit. split; [apply StronglySorted_merge_sort; apply _|].
  split; [apply merge_sort_Permutation|].
  assert (∀ g, g ∈ cs → passes start uuid g ↔ hit g) as Hhit.
  { intros g Hg. unfold hit. rewrite <- admissible_in_window.
    apply (passes_matches files start uuid g Hg). }
  assert (∀ l, (∀ g, g ∈ l → g ∈ cs) →
               Forall (λ g, ¬ passes start uuid g) l →
               Forall (λ g, ¬ hit g) l) as Hnone.
  { intros l Hl. rewrite !Forall_forall. intros H g Hg Hm.
    apply (H g Hg). by apply Hhit; [apply Hl|]. }
  assert (∀ l : list Path.t,
            filter (admissible start) l = filter (in_window start) l) as Hfilter.
  { intros l. apply list_filter_iff. intros g. apply admissible_in_window. }
  unfold find_log_file, find_log_file_opened, find_log_file_run. fold cs.
  destruct (find_log_file_loop uuid start cs) as [opened [f|]] eqn:H; simpl.
  - apply find_log_file_loop_Some in H as (pre & post & Hcs & Hf & Hpre & Hopened).
    exists pre, post. split; [done|]. split; [|split].
    + apply Hhit; [|done]. rewrite Hcs, elem_of_app. right. apply list_elem_of_here.
    + apply Hnone; [|done]. intros g Hg. rewrite Hcs, elem_of_app. by left.
    + by rewrite <- Hfilter.
  - apply find_log_file_loop_None in H as [Hall Hopened].
    split; [by apply Hnone|]. by rewrite <- Hfilter.
Qed.

(** ** Compressed logs *)

(** Given a compressed file, [_contains_uuid] and [extract_process_logs]
    read its decompressed lines as they read the lines of a plain file. *)
Lemma gzip_read_like_text (f g : Path.t) (uuid : string) :
  Path.suffix f = ".gz"%string →
  Path.suffix g ≠ ".gz"%string →
  Path.as_gzip f = Path.as_text g →
  _contains_uuid f uuid = _contains_uuid g uuid ∧
  extract_process_logs f uuid = extract_process_logs g uuid.
Proof.
  intros Hf Hg Hsame. unfold _contains_uuid, extract_process_logs.
  rewrite Hf. apply String.eqb_neq in Hg. rewrite Hg. simpl.
  by rewrite Hsame.
Qed.

(** C2 at the compressed log of the day: [_contains_uuid] and
    [extract_process_logs] read it through [gzip] and find the
    identifier, but the pattern of [find_log_file] does not match its
    name, so it is no candidate and nothing is found; the same log
    uncompressed is found. *)
Theorem gzip_log_not_a_candidate :
  _contains_uuid log_0308_gz "job-2" = true ∧
  extract_process_logs log_0308_gz "job-2" = extract_process_logs log_0308 "job-2" ∧
  candidates [log_0308_gz] noon = [] ∧
  find_log_file [log_0308_gz] "job-2" noon = None ∧
  find_log_file [log_0308] "job-2" noon = Some log_0308.
Proof. repeat split; by vm_compute. Qed.

(** ** [extract_error_summary] *)

(** A line counts as an error when one of the markers occurs in it,
    whatever the letter case. *)
Lemma is_important_iff (line : string) :
  is_important line = true ↔
  ∃ pattern, pattern ∈ important_patterns ∧ Str.ci_occurs pattern line.
Proof.
  unfold is_important, re_search_ignorecase. rewrite existsb_exists.
  split; intros (pattern & Hin & H); exists pattern;
    (split; [by apply list_elem_of_In | by apply ci_occurs_iff]).
Qed.

Lemma slice_from_last {A : Type} (n : Z) (l : list A) :
  1 ≤ n → slice_from (- n) l = last_n (Z.to_nat n) l.
Proof.
  intros Hn. unfold slice_from, last_n.
  rewrite (proj2 (Z.ltb_lt _ _)) by lia. f_equal. lia.
Qed.

Lemma slice_from_zero {A : Type} (l : list A) : slice_from (- 0) l = l.
Proof. unfold slice_from. simpl. by rewrite Z.min_l by lia. Qed.

Lemma length_last_n {A : Type} (n : nat) (l : list A) :
  length (last_n n l) = (n `min` length l)%nat.
Proof. unfold last_n. rewrite length_drop. lia. Qed.

(** For a positive [max_lines]: no lines give the fixed text; lines with
    markers give the number of all of them and the last [max_lines] of
    them; lines without any marker give the last [max_lines] lines and
    their number. *)
Lemma extract_error_summary_positive (log_lines : list string) (max_lines : Z) :
  1 ≤ max_lines →
  extract_error_summary log_lines max_lines =
    match log_lines, important log_lines with
    | [], _ => "No log data available"%string
    | _, _ :: _ =>
        error_header (length (important log_lines)) +:+
        Str.join (last_n (Z.to_nat max_lines) (important log_lines))
    | _, [] =>
        tail_header (Z.to_nat max_lines `min` length log_lines) +:+
        Str.join (last_n (Z.to_nat max_lines) log_lines)
    end.
Proof.
  intros Hn. unfold extract_error_summary. fold (important log_lines).
  destruct log_lines as [|l ls]; [done|].
  rewrite !slice_from_last, length_last_n by done.
  destruct (important (l :: ls)); unfold error_header, tail_header;
    by rewrite !str_app_assoc.
Qed.

(** For [max_lines = 0] the slice [lines[-0:]] is the whole list: the
    summary holds every line instead of none. *)
Lemma extract_error_summary_zero (log_lines : list string) :
  extract_error_summary log_lines 0 =
    match log_lines, important log_lines with
    | [], _ => "No log data available"%string
    | _, _ :: _ =>
        error_header (length (important log_lines)) +:+ Str.join (important log_lines)
    | _, [] => tail_header (length log_lines) +:+ Str.join log_lines
    end.
Proof.
  unfold extract_error_summary. fold (important log_lines).
  destruct log_lines as [|l ls]; [done|]. rewrite !slice_from_zero.
  destruct (important (l :: ls)); unfold error_header, tail_header;
    by rewrite !str_app_assoc.
Qed.

(** C7 at [max_lines = 0] and [max_lines = 1]: of the two lines with a
    marker, the summary for [1] shows the last one, the summary for [0]
    shows both, where the last [0] lines are none. *)
Theorem extract_error_summary_max_lines_zero :
  extract_error_summary sample_lines 1 =
    "=== Error Summary (2 error lines found) ===" +:+ Str.nl +:+ Str.nl +:+
    "10:03 job-2 Traceback follows" +:+ Str.nl ∧
  extract_error_summary sample_lines 0 =
    "=== Error Summary (2 error lines found) ===" +:+ Str.nl +:+ Str.nl +:+
    "10:01 job-2 ERROR disk full" +:+ Str.nl +:+
    "10:03 job-2 Traceback follows" +:+ Str.nl ∧
  last_n 0 (important sample_lines) = [].
Proof. repeat split; by vm_compute. Qed.

(** ** The report without a log directory *)

Lemma str_app_nil_r (s : string) : s +:+ "" = s.
Proof. induction s as [|c s IH]; simpl; [done | by rewrite IH]. Qed.

Lemma contains_app_l (sub a b : string) :
  Str.contains sub a = true → Str.contains sub (a +:+ b) = true.
Proof.
  rewrite !contains_iff. intros (pre & post & ->).
  exists pre, (post +:+ b). by rewrite !str_app_assoc.
Qed.

Lemma contains_app_r (sub a b : string) :
  Str.contains sub b = true → Str.contains sub (a +:+ b) = true.
Proof.
  rewrite !contains_iff. intros (pre & post & ->).
  exists (a +:+ pre), post. by rewrite !str_app_assoc.
Qed.

Lemma contains_join (c : string) (cards : list string) :
  c ∈ cards → Str.contains c (Str.join cards) = true.
Proof.
  induction cards as [|d cards IH]; [by intros ?%elem_of_nil|].
  intros [->|Hin]%elem_of_cons; simpl.
  - apply contains_app_l, contains_iff. exists ""%string, ""%string.
    by rewrite str_app_nil_r.
  - by apply contains_app_r, IH.
Qed.

Lemma result_bind_Ok {A B : Type} (a : A) (k : A → result B) : Ok a ≫= k = k a.
Proof. done. Qed.

Lemma append_cards_Ok {A : Type} (card : A → result string) (l : list A) :
  ∀ html cards,
    Forall2 (λ x c, card x = Ok c) l cards →
    append_cards card l html = Ok (html +:+ Str.join cards).
Proof.
  unfold append_cards.
  induction l as [|x l IH]; intros html cards H; inversion H as [|? c ? cs Hc Hcs];
    subst; simpl.
  - by rewrite str_app_nil_r.
  - rewrite Hc. simpl. rewrite (IH _ cs Hcs). by rewrite str_app_assoc.
Qed.

(** A section of cards that cannot fail adds text to the report. *)
Lemma pure_section {A : Type} (card : A → string) (l : list A) (opening html : string) :
  ∃ added,
    match l with
    | [] => Ok html
    | _ :: _ =>
        html' ← append_cards (λ p, Ok (card p)) l (html +:+ opening);
        Ok (html' +:+ section_close)
    end = Ok (html +:+ added).
Proof.
  destruct l as [|x l]; [exists ""%string; by rewrite str_app_nil_r|].
  rewrite (append_cards_Ok _ _ _ (card <$> x :: l)).
  - rewrite result_bind_Ok. eexists. by rewrite !str_app_assoc.
  - apply Forall2_fmap_r, Forall_Forall2_diag, Forall_forall. by intros.
Qed.

(** When the cards of the failed jobs can be rendered, the report is
    rendered and holds each of them. *)
Lemma generate_html_report_cards c failed_logs finished_data timestamp cards :
  Forall2 (λ p card, failed_card failed_logs p = Ok card) (failed c) cards →
  ∃ html,
    _generate_html_report c failed_logs finished_data timestamp = Ok html ∧
    ∀ card, card ∈ cards → Str.contains card html = true.
Proof.
  intros Hcards. unfold _generate_html_report. cbv zeta.
  set (header := html_header _ _ _ _ _).
  assert (∃ added,
            match failed c with
            | [] => Ok header
            | _ :: _ =>
                html ← append_cards (failed_card failed_logs) (failed c)
                         (header +:+ failed_section_open);
                Ok (html +:+ section_close)
            end = Ok (header +:+ added) ∧
            ∀ card, card ∈ cards → Str.contains card added = true)
    as (added & -> & Hadded).
  { destruct (failed c) as [|p ps].
    - inversion Hcards; subst. exists ""%string. rewrite str_app_nil_r.
      split; [done|]. by intros card ?%elem_of_nil.
    - rewrite (append_cards_Ok _ _ _ _ Hcards), result_bind_Ok.
      exists (failed_section_open +:+ Str.join cards +:+ section_close).
      split; [by rewrite !str_app_assoc|].
      intros card Hin. by apply contains_app_r, contains_app_l, contains_join. }
  rewrite result_bind_Ok.
  destruct (pure_section (finished_card finished_data) (finished c)
              finished_section_open (header +:+ added)) as [fin ->].
  rewrite result_bind_Ok.
  destruct (pure_section running_card (running c) running_section_open
              ((header +:+ added) +:+ fin)) as [run ->].
  rewrite result_bind_Ok. eexists. split; [done|].
  intros card Hin. by apply contains_app_l, contains_app_l, contains_app_l,
    contains_app_r, Hadded.
Qed.

(** The card of a job whose log information says [found = False]. *)
Lemma failed_card_unfound failed_logs p info :
  failed_logs !! process_uuid p = Some info →
  info !! "found" = Some (PBool false) →
  failed_card failed_logs p =
    Ok (failed_card_head p (process_uuid p) +:+ failed_card_not_found
        +:+ failed_card_close).
Proof.
  intros Hinfo Hfound. unfold failed_card. rewrite Hinfo. simpl. rewrite Hfound.
  simpl. by rewrite str_app_assoc.
Qed.

Lemma lookup_foldl_insert_uuid (v : log_info) (l : list process) :
  ∀ (m : gmap string log_info) (u : string),
    foldl (λ m p, <[process_uuid p := v]> m) m l !! u =
      if decide (u ∈ process_uuid <$> l) then Some v else m !! u.
Proof.
  induction l as [|q l IH]; intros m u.
  - by rewrite decide_False by apply not_elem_of_nil.
  - cbn [foldl]. rewrite IH, fmap_cons.
    destruct (decide (u ∈ process_uuid <$> l)) as [Hin|Hout].
    + by rewrite decide_True by (by apply list_elem_of_further).
    + destruct (decide (u = process_uuid q)) as [->|Hne].
      * by rewrite lookup_insert_eq, decide_True by apply list_elem_of_here.
      * rewrite lookup_insert_ne by done.
        by rewrite decide_False by (rewrite elem_of_cons; tauto).
Qed.

Lemma process_failed_processes_None e od failed_processes out :
  process_failed_processes None e od failed_processes out =
    Ok (foldl (λ m p, <[process_uuid p := not_configured_info]> m) ∅ failed_processes,
        out).
Proof. by destruct failed_processes. Qed.

(** C9: without a log directory, the failed jobs still get their
    information, with [found = False] and the summary "Log retrieval not
    configured"; the report is rendered, and it holds the card of the
    job, which says "Log file not found". *)
Theorem report_without_log_retriever (e : env) (output_dir : string)
  (c : categorized) (out : outputs) (finished_data : gmap string finished_info)
  (timestamp : datetime.t) (p : process) :
  p ∈ failed c →
  ∃ failed_logs info html card,
    process_failed_processes None e output_dir (failed c) out = Ok (failed_logs, out) ∧
    failed_logs !! process_uuid p = Some info ∧
    info !! "found" = Some (PBool false) ∧
    info !! "summary" = Some (PStr "Log retrieval not configured") ∧
    _generate_html_report c failed_logs finished_data timestamp = Ok html ∧
    failed_card failed_logs p = Ok card ∧
    Str.contains card html = true ∧
    Str.contains "Log file not found" card = true.
Proof.
  intros Hp. rewrite process_failed_processes_None.
  set (failed_logs := foldl _ ∅ (failed c)).
  set (card := λ q, failed_card_head q (process_uuid q) +:+ failed_card_not_found
                    +:+ failed_card_close).
  assert (∀ q, q ∈ failed c → failed_logs !! process_uuid q = Some not_configured_info)
    as Hlookup.
  { intros q Hq. unfold failed_logs. rewrite lookup_foldl_insert_uuid.
    by rewrite decide_True by (by apply list_elem_of_fmap_2). }
  assert (∀ q, q ∈ failed c → failed_card failed_logs q = Ok (card q)) as Hcard.
  { intros q Hq.
    apply (failed_card_unfound _ _ not_configured_info); [by apply Hlookup | done]. }
  destruct (generate_html_report_cards c failed_logs finished_data timestamp
              (card <$> failed c)) as (html & Hhtml & Hin).
  { by apply Forall2_fmap_r, Forall_Forall2_diag, Forall_forall. }
  exists failed_logs, not_configured_info, html, (card p).
  split; [done|]. split; [by apply Hlookup|]. split; [done|]. split; [done|].
  split; [done|]. split; [by apply Hcard|].
  split; [by apply Hin, list_elem_of_fmap_2|].
  by apply contains_app_r, contains_app_l.
Qed.

Lemma report_without_log_retriever_witness :
  job_failed ∈ failed (mk_categorized [job_finished] [job_failed] [job_running] []) ∧
  ∃ failed_logs info html card,
    process_failed_processes None sample_env "/reports"
      (failed (mk_categorized [job_finished] [job_failed] [job_running] [])) no_outputs
      = Ok (failed_logs, no_outputs) ∧
    failed_logs !! process_uuid job_failed = Some info ∧
    info !! "found" = Some (PBool false) ∧
    info !! "summary" = Some (PStr "Log retrieval not configured") ∧
    _generate_html_report (mk_categorized [job_finished] [job_failed] [job_running] [])
      failed_logs ∅ midnight = Ok html ∧
    failed_card failed_logs job_failed = Ok card ∧
    Str.contains card html = true ∧
    Str.contains "Log file not found" card = true.
Proof.
  assert (job_failed ∈ failed (mk_categorized [job_finished] [job_failed] [job_running] []))
    as Hin by (simpl; apply list_elem_of_here).
  split; [exact Hin|].
  exact (report_without_log_retriever sample_env "/reports"
           (mk_categorized [job_finished] [job_failed] [job_running] [])
           no_outputs ∅ midnight job_failed Hin).
Defined.

(** ** [get_failed_process_logs] *)

Lemma not_found_info_fields : has_fields not_found_info.
Proof. unfold has_fields, not_found_info. by simplify_map_eq. Qed.

Lemma found_info_fields log_file summary full_log saved_path line_count :
  has_fields (found_info log_file summary full_log saved_path line_count).
Proof. unfold has_fields, found_info. by simplify_map_eq. Qed.

(** One iteration stores one entry under the identifier of the job. *)
Lemma failed_logs_body_Ok self e od m out p m' out' :
  failed_logs_body self e od (m, out) p = Ok (m', out') →
  ∃ info,
    m' = <[process_uuid p := info]> m ∧
    has_fields info ∧
    (find_log_file (listing self) (process_uuid p) (start_time p) = None →
     info = not_found_info).
Proof.
  unfold failed_logs_body, save_process_log.
  destruct (find_log_file _ _ _) as [f|].
  - destruct (writable e _); [|done]. simpl. intros [= <- <-].
    eexists. split; [done|]. split; [apply found_info_fields | done].
  - intros [= <- <-]. exists not_found_info.
    split; [done|]. split; [apply not_found_info_fields | done].
Qed.

Lemma failed_logs_body_total self e od st p :
  (∀ path, writable e path = true) →
  ∃ st', failed_logs_body self e od st p = Ok st'.
Proof.
  intros Hw. destruct st as [m out]. unfold failed_logs_body, save_process_log.
  destruct (find_log_file _ _ _); [|by eexists].
  rewrite Hw. simpl. by eexists.
Qed.

Lemma get_failed_process_logs_loop self e od l : ∀ m out m' out',
  for_each (failed_logs_body self e od) l (m, out) = Ok (m', out') →
  dom m' = dom m ∪ list_to_set (process_uuid <$> l) ∧
  (∀ u info, m' !! u = Some info → m !! u = Some info ∨ has_fields info) ∧
  (∀ u, u ∉ process_uuid <$> l → m' !! u = m !! u) ∧
  (NoDup (process_uuid <$> l) →
   ∀ p, p ∈ l →
        find_log_file (listing self) (process_uuid p) (start_time p) = None →
        m' !! process_uuid p = Some not_found_info).
Proof.
  induction l as [|q l IH]; intros m out m' out' H; cbn [for_each] in H.
  - injection H as <- <-.
    split; [by rewrite fmap_nil, list_to_set_nil, (right_id_L ∅ (∪))|].
    split; [by left|]. split; [done|]. by intros _ p []%elem_of_nil.
  - destruct (failed_logs_body self e od (m, out) q) as [[m1 out1]|] eqn:Hq;
      simpl in H; [|done].
    apply failed_logs_body_Ok in Hq as (info & -> & Hfields & Hnone).
    destruct (IH _ _ _ _ H) as (Hdom & Hinfo & Hother & Hjobs).
    rewrite fmap_cons. split; [|split; [|split]].
    + rewrite Hdom, dom_insert_L, list_to_set_cons.
      by rewrite (comm_L (∪) {[_]} (dom m)), !(assoc_L (∪)).
    + intros u i Hu. destruct (Hinfo u i Hu) as [Hm1|]; [|by right].
      destruct (decide (u = process_uuid q)) as [->|Hne].
      * rewrite lookup_insert_eq in Hm1. injection Hm1 as <-. by right.
      * rewrite lookup_insert_ne in Hm1 by done. by left.
    + intros u [Hne Hout]%not_elem_of_cons.
      by rewrite (Hother u Hout), lookup_insert_ne.
    + intros [Hfresh Hnodup]%NoDup_cons p [->|Hp]%elem_of_cons Hfind.
      * by rewrite (Hother _ Hfresh), lookup_insert_eq, (Hnone Hfind).
      * by apply Hjobs.
Qed.

Lemma get_failed_process_logs_total self e od l : ∀ st,
  (∀ path, writable e path = true) →
  ∃ st', for_each (failed_logs_body self e od) l st = Ok st'.
Proof.
  induction l as [|q l IH]; intros st Hw; cbn [for_each]; [by eexists|].
  destruct (failed_logs_body_total self e od st q Hw) as [st' ->]. simpl.
  by apply IH.
Qed.

(** C10: whenever [get_failed_process_logs] returns, the keys of the
    mapping are the identifiers of the input jobs, every entry carries
    the fields [found], [summary] and [saved_path], and, the identifiers
    being distinct, the entry of a job for which no log file was located
    has [found = False] and the summary "Log file not found". It returns
    whenever the extracted logs can be written. *)
Theorem get_failed_process_logs_entries (self : LogRetriever) (e : env)
  (failed_processes : list process) (output_dir : option string) (out : outputs) :
  (∀ results out',
     get_failed_process_logs self e failed_processes output_dir out
       = Ok (results, out') →
     dom results = list_to_set (process_uuid <$> failed_processes) ∧
     (∀ u info, results !! u = Some info → has_fields info) ∧
     (NoDup (process_uuid <$> failed_processes) →
      ∀ p, p ∈ failed_processes →
           find_log_file (listing self) (process_uuid p) (start_time p) = None →
           ∃ info, results !! process_uuid p = Some info ∧
                   info !! "found" = Some (PBool false) ∧
                   info !! "summary" = Some (PStr "Log file not found") ∧
                   info !! "saved_path" = Some PNone)) ∧
  ((∀ path, writable e path = true) →
   ∃ results out',
     get_failed_process_logs self e failed_processes output_dir out
       = Ok (results, out')).
Proof.
  split.
  - intros results out' H.
    apply get_failed_process_logs_loop in H as (Hdom & Hinfo & _ & Hjobs).
    split; [by rewrite Hdom, dom_empty_L, (left_id_L ∅ (∪))|]. split.
    + intros u info Hu. destruct (Hinfo u info Hu) as [Hempty|]; [|done].
      by rewrite lookup_empty in Hempty.
    + intros Hnodup p Hp Hfind. exists not_found_info.
      split; [by apply Hjobs|]. by unfold not_found_info; simplify_map_eq.
  - intros Hw.
    destruct (get_failed_process_logs_total self e
                (default (joinpath (home e) "failed_process_logs") output_dir)
                failed_processes (∅, out) Hw) as [[results out'] H].
    by exists results, out'.
Qed.

Lemma get_failed_process_logs_entries_witness :
  (∀ path, writable sample_env path = true) ∧
  NoDup (process_uuid <$> [job_failed; job_lost]) ∧
  job_lost ∈ [job_failed; job_lost] ∧
  find_log_file (listing sample_retriever) (process_uuid job_lost)
    (start_time job_lost) = None ∧
  ∃ results out',
    get_failed_process_logs sample_retriever sample_env [job_failed; job_lost]
      (Some "/reports/failed_logs"%string) no_outputs = Ok (results, out') ∧
    dom results = list_to_set (process_uuid <$> [job_failed; job_lost]) ∧
    (∀ u info, results !! u = Some info → has_fields info) ∧
    ∃ info, results !! process_uuid job_lost = Some info ∧
            info !! "found" = Some (PBool false) ∧
            info !! "summary" = Some (PStr "Log file not found") ∧
            info !! "saved_path" = Some PNone.
Proof.
  assert (∀ path, writable sample_env path = true) as Hw by reflexivity.
  assert (NoDup (process_uuid <$> [job_failed; job_lost])) as Hnodup
    by (by apply (bool_decide_unpack _)).
  assert (job_lost ∈ [job_failed; job_lost]) as Hin
    by (apply list_elem_of_further, list_elem_of_here).
  assert (find_log_file (listing sample_retriever) (process_uuid job_lost)
            (start_time job_lost) = None) as Hfind by (by vm_compute).
  split; [exact Hw|]. split; [exact Hnodup|]. split; [exact Hin|].
  split; [exact Hfind|].
  destruct (get_failed_process_logs_entries sample_retriever sample_env
              [job_failed; job_lost] (Some "/reports/failed_logs"%string) no_outputs)
    as [Hentries Htotal].
  destruct (Htotal Hw) as (results & out' & Hrun).
  destruct (Hentries results out' Hrun) as (Hdom & Hfields & Hjobs).
  exists results, out'. split; [exact Hrun|]. split; [exact Hdom|].
  split; [exact Hfields|]. exact (Hjobs Hnodup job_lost Hin Hfind).
Defined.

(** The run of the example, with the default output directory: the log
    of [job-2] is found, summarised and saved; [job-7] is in no log. *)
Example get_failed_process_logs_example :
  ('(results, out') ← get_failed_process_logs sample_retriever sample_env
                        [job_failed; job_lost] None no_outputs;
   Ok (results !! "job-2" ≫= (.!! "found"),
       results !! "job-2" ≫= (.!! "log_file"),
       results !! "job-2" ≫= (.!! "saved_path"),
       results !! "job-7" ≫= (.!! "found"),
       results !! "job-7" ≫= (.!! "summary"),
       disk out' !! "/home/reports/failed_process_logs/job-2_20260207_000000.log"))
  = Ok (Some (PBool true),
        Some (PStr "/var/log/perception/2026-02-06T10-00-00_perception_api.log"),
        Some (PStr "/home/reports/failed_process_logs/job-2_20260207_000000.log"),
        Some (PBool false),
        Some (PStr "Log file not found"),
        Some ("10:01:00 job-2 started" +:+ Str.nl)).
Proof. vm_compute. reflexivity. Qed.

(** ** A run from the rows to the report *)

(** Three jobs, finished, failed and running, with no skip set and no
    log directory: the summary table of the report counts three jobs, one
    in each of the three buckets, and the failed job has its card. *)
Example run_three_jobs :
  ('(html, _) ← run (mk_DailyReportOrchestrator ∅ None empty_drive "/reports")
                  sample_env [job_finished; job_failed; job_running] no_outputs;
   Ok (Str.contains "<td><strong>3</strong></td>" html,
       Str.contains ("badge-finished" +:+ Str.dq +:+ ">1</span>") html,
       Str.contains ("badge-failed" +:+ Str.dq +:+ ">1</span>") html,
       Str.contains ("badge-running" +:+ Str.dq +:+ ">1</span>") html,
       Str.contains "<td>job-2</td>" html,
       Str.contains "Log file not found" html,
       Str.contains "Not found in OneDrive" html))
  = Ok (true, true, true, true, true, true, true).
Proof. vm_compute. reflexivity. Qed.

(** ** [find_log_file] and the listing of the directory *)

(** The files of a directory have distinct names, so a name names one
    file. *)
Lemma name_inj (l : list Path.t) (x y : Path.t) :
  NoDup (Path.name <$> l) → x ∈ l → y ∈ l → Path.name x = Path.name y → x = y.
Proof.
  induction l as [|z l IH]; [by intros _ ?%elem_of_nil|].
  rewrite fmap_cons, NoDup_cons.
  intros [Hz Hl] [->|Hx]%elem_of_cons [->|Hy]%elem_of_cons Hn; try done.
  - destruct Hz. rewrite Hn. by apply list_elem_of_fmap_2.
  - destruct Hz. rewrite <- Hn. by apply list_elem_of_fmap_2.
  - by apply IH.
Qed.

(** Files with distinct names have one sorted arrangement. *)
Lemma sorted_by_name_unique (l1 : list Path.t) : ∀ l2,
  StronglySorted Path.le l1 → StronglySorted Path.le l2 → l1 ≡ₚ l2 →
  NoDup (Path.name <$> l1) → l1 = l2.
Proof.
  induction l1 as [|x l1 IH]; intros l2 H1 H2 HP Hnd.
  - symmetry. by apply Permutation_nil.
  - destruct l2 as [|y l2]; [by apply Permutation_sym, Permutation_nil in HP|].
    assert (x = y) as ->.
    { assert (x ∈ y :: l2) as Hx by (rewrite <- HP; apply list_elem_of_here).
      assert (y ∈ x :: l1) as Hy by (rewrite HP; apply list_elem_of_here).
      apply (name_inj (x :: l1)); [done | apply list_elem_of_here | done |].
      apply StronglySorted_cons in H1 as [H1 _].
      apply StronglySorted_cons in H2 as [H2 _].
      rewrite Forall_forall in H1, H2.
      apply elem_of_cons in Hx as [->|Hx]; [done|].
      apply elem_of_cons in Hy as [->|Hy]; [done|].
      apply (anti_symm String.le); [apply (H1 y Hy) | apply (H2 x Hx)]. }
    f_equal. apply StronglySorted_cons in H1 as [_ H1].
    apply StronglySorted_cons in H2 as [_ H2].
    rewrite fmap_cons, NoDup_cons in Hnd.
    apply IH; [done | done | by apply Permutation_cons_inv in HP | apply Hnd].
Qed.

Lemma NoDup_names_glob (files : list Path.t) (date_str : string) :
  NoDup (Path.name <$> files) → NoDup (Path.name <$> glob files date_str).
Proof.
  intros H. eapply sublist_NoDup; [exact H|].
  apply fmap_sublist, sublist_filter.
Qed.

Lemma NoDup_names_candidates (files : list Path.t) (start : datetime.t) :
  NoDup (Path.name <$> files) → NoDup (Path.name <$> candidates files start).
Proof.
  intros H. unfold candidates. rewrite merge_sort_Permutation.
  by apply NoDup_names_glob.
Qed.

(** The candidates are the one sorted arrangement of the files of the
    day. *)
Lemma candidates_unique (files : list Path.t) (start : datetime.t) (l : list Path.t) :
  NoDup (Path.name <$> files) →
  StronglySorted Path.le l →
  l ≡ₚ glob files (datetime.strftime_date start) →
  candidates files start = l.
Proof.
  intros Hnd Hl HP. apply sorted_by_name_unique.
  - apply StronglySorted_merge_sort; apply _.
  - done.
  - unfold candidates. by rewrite merge_sort_Permutation.
  - by apply NoDup_names_candidates.
Qed.

(** X1: the order in which the directory lists its files does not
    matter: two listings of the same files, with distinct names, give the
    same result and the same opened files. *)
Theorem find_log_file_listing_order (files files' : list Path.t) (uuid : string)
  (start : datetime.t) :
  NoDup (Path.name <$> files) →
  files ≡ₚ files' →
  find_log_file files uuid start = find_log_file files' uuid start ∧
  find_log_file_opened files uuid start = find_log_file_opened files' uuid start.
Proof.
  intros Hnd HP.
  assert (candidates files start = candidates files' start) as Hcs.
  { apply candidates_unique; [done | apply StronglySorted_merge_sort; apply _ |].
    unfold candidates, glob. by rewrite merge_sort_Permutation, HP. }
  unfold find_log_file, find_log_file_opened, find_log_file_run.
  by rewrite Hcs.
Qed.

Lemma find_log_file_listing_order_witness :
  NoDup (Path.name <$> [log_C; log_A; log_B]) ∧
  [log_C; log_A; log_B] ≡ₚ [log_A; log_B; log_C] ∧
  find_log_file [log_C; log_A; log_B] "job-2" noon
    = find_log_file [log_A; log_B; log_C] "job-2" noon ∧
  find_log_file_opened [log_C; log_A; log_B] "job-2" noon
    = find_log_file_opened [log_A; log_B; log_C] "job-2" noon.
Proof.
  assert (NoDup (Path.name <$> [log_C; log_A; log_B])) as Hnd
    by (by apply (bool_decide_unpack _)).
  assert ([log_C; log_A; log_B] ≡ₚ [log_A; log_B; log_C]) as HP
    by (by rewrite (Permutation_cons_append _ log_C)).
  split; [exact Hnd|]. split; [exact HP|].
  exact (find_log_file_listing_order _ _ "job-2" noon Hnd HP).
Defined.

(** Taking a file that does not pass the tests out of the list leaves
    the result of the loop as it is. *)
Lemma find_log_file_loop_skip uuid start (a b : list Path.t) (f : Path.t) :
  ¬ passes start uuid f →
  snd (find_log_file_loop uuid start (a ++ f :: b))
  = snd (find_log_file_loop uuid start (a ++ b)).
Proof.
  intros Hf.
  assert (snd (find_log_file_loop uuid start (f :: b))
          = snd (find_log_file_loop uuid start b)) as Hhead.
  { simpl. destruct (outside_window start f) eqn:Hw; [done|].
    destruct (_contains_uuid f uuid) eqn:Hc; [by destruct Hf|].
    by destruct (find_log_file_loop uuid start b). }
  induction a as [|g a IH]; [done|]. simpl.
  destruct (outside_window start g); [done|].
  destruct (_contains_uuid g uuid); [done|].
  destruct (find_log_file_loop uuid start (a ++ f :: b)),
           (find_log_file_loop uuid start (a ++ b)). by simpl in *.
Qed.

(** X2: a log file in which no line with the identifier can be read, as
    one that cannot be opened, does not change the result for the other
    files of the directory. *)
Theorem find_log_file_ignores_unreadable (files1 files2 : list Path.t) (f : Path.t)
  (uuid : string) (start : datetime.t) :
  NoDup (Path.name <$> files1 ++ f :: files2) →
  _contains_uuid f uuid = false →
  find_log_file (files1 ++ f :: files2) uuid start
  = find_log_file (files1 ++ files2) uuid start.
Proof.
  intros Hnd Hf. set (date_str := datetime.strftime_date start).
  assert (NoDup (Path.name <$> files1 ++ files2)) as Hnd'.
  { eapply sublist_NoDup; [exact Hnd|].
    apply fmap_sublist, sublist_app; [done|]. by apply sublist_cons. }
  unfold find_log_file, find_log_file_run.
  destruct (glob_match date_str (Path.name f)) eqn:Hm.
  - set (cs := candidates (files1 ++ f :: files2) start).
    assert (cs ≡ₚ glob files1 date_str ++ f :: glob files2 date_str) as HP.
    { unfold cs, candidates, glob. rewrite merge_sort_Permutation.
      by rewrite filter_app, filter_cons_True. }
    assert (f ∈ cs) as [a [b Hcs]]%list_elem_of_split.
    { rewrite HP, elem_of_app. right. apply list_elem_of_here. }
    assert (candidates (files1 ++ files2) start = a ++ b) as ->.
    { apply candidates_unique; [done| |].
      - assert (StronglySorted Path.le cs) as Hs
          by (apply StronglySorted_merge_sort; apply _).
        rewrite Hcs in Hs. apply StronglySorted_app in Hs as (Hab & Ha & Hb).
        apply StronglySorted_app. split; [|split; [done|]].
        + intros x1 x2 H1 H2. apply Hab; [done|]. by apply list_elem_of_further.
        + by apply StronglySorted_cons in Hb as [_ Hb].
      - rewrite Hcs in HP. apply Permutation_app_inv in HP.
        unfold glob. fold date_str. by rewrite filter_app. }
    rewrite Hcs. apply find_log_file_loop_skip. intros [_ Hc]. congruence.
  - assert (candidates (files1 ++ f :: files2) start
            = candidates (files1 ++ files2) start) as ->; [|done].
    unfold candidates, glob. fold date_str.
    rewrite !filter_app, filter_cons_False; [done|]. congruence.
Qed.

Lemma find_log_file_ignores_unreadable_witness :
  NoDup (Path.name <$> [log_A] ++ log_unreadable :: [log_B; log_C]) ∧
  _contains_uuid log_unreadable "job-2" = false ∧
  find_log_file ([log_A] ++ log_unreadable :: [log_B; log_C]) "job-2" noon
  = find_log_file ([log_A] ++ [log_B; log_C]) "job-2" noon.
Proof.
  assert (NoDup (Path.name <$> [log_A] ++ log_unreadable :: [log_B; log_C])) as Hnd
    by (by apply (bool_decide_unpack _)).
  split; [exact Hnd|]. split; [reflexivity|].
  exact (find_log_file_ignores_unreadable [log_A] [log_B; log_C] log_unreadable
           "job-2" noon Hnd eq_refl).
Defined.

(** ** What is extracted from the file that was found *)




(** ** Paths *)

Example joinpath_examples :
  joinpath "/reports/failed_logs" "job-2_20260207_000000.log"
    = "/reports/failed_logs/job-2_20260207_000000.log"%string ∧
  joinpath "/reports/failed_logs" "/abs_20260207_000000.log"
    = "/abs_20260207_000000.log"%string ∧
  joinpath "/reports/failed_logs" "./job-2_20260207_000000.log"
    = "/reports/failed_logs/job-2_20260207_000000.log"%string ∧
  joinpath "/reports//failed_logs/" "a//b/./c.log" = "/reports/failed_logs/a/b/c.log"%string ∧
  joinpath "//srv/./x" "" = "//srv/x"%string ∧
  joinpath "///srv" "../y" = "/srv/../y"%string ∧
  joinpath "" "" = "."%string ∧
  joinpath "." "x" = "x"%string ∧
  joinpath "/" "x" = "/x"%string ∧
  joinpath "//" "x" = "//x"%string ∧
  joinpath "a" "//b" = "//b"%string ∧
  joinpath "a" "///b" = "/b"%string ∧
  joinpath "/a/" "." = "/a"%string.
Proof. repeat split; reflexivity. Qed.

Lemma startswith_one (d c : ascii) (s : string) :
  Str.startswith (String d "") (String c s) = Ascii.eqb c d.
Proof.
  unfold Str.startswith. simpl.
  destruct (Ascii.ascii_dec d c) as [<-|Hne].
  - rewrite Ascii.eqb_refl. by destruct s.
  - symmetry. apply Ascii.eqb_neq. congruence.
Qed.

Lemma startswith_slash (c : ascii) (s : string) :
  Str.startswith "/" (String c s) = Ascii.eqb c "/".
Proof. apply startswith_one. Qed.

Lemma plain_cons (c : ascii) (s : string) :
  plain (String c s) ↔ Ascii.eqb c "/" = false ∧ plain s.
Proof.
  unfold plain. cbn [Str.contains]. rewrite startswith_slash.
  apply orb_false_iff.
Qed.

Lemma plain_app (a b : string) : plain (a +:+ b) ↔ plain a ∧ plain b.
Proof.
  induction a as [|c a IH]; simpl.
  - unfold plain at 2. simpl. tauto.
  - rewrite !plain_cons, IH. tauto.
Qed.

Lemma split_plain (s : string) : plain s → PurePosixPath.split s = [s].
Proof.
  induction s as [|c s IH]; [done|].
  intros [Hc Hs]%plain_cons. cbn [PurePosixPath.split]. by rewrite Hc, IH.
Qed.

Lemma join_with_snoc (sep n : string) (ps : list string) :
  Str.join_with sep (ps ++ [n]) =
  match ps with
  | [] => n
  | _ => (Str.join_with sep ps +:+ sep) +:+ n
  end.
Proof.
  induction ps as [|a ps IH]; [done|].
  destruct ps as [|b ps]; [cbn [app Str.join_with]; by rewrite str_app_assoc|].
  change (Str.join_with sep ((a :: b :: ps) ++ [n]))
    with (a +:+ sep +:+ Str.join_with sep ((b :: ps) ++ [n])).
  rewrite IH. cbn [Str.join_with]. by rewrite !str_app_assoc.
Qed.

Lemma str_snoc (r n : string) (ps : list string) :
  PurePosixPath.str (PurePosixPath.mk r (ps ++ [n])) =
  r +:+ match ps with
        | [] => ""
        | _ => Str.join_with "/" ps +:+ "/"
        end +:+ n.
Proof.
  unfold PurePosixPath.str. cbn [PurePosixPath.root PurePosixPath.parts].
  pose proof (join_with_snoc "/" n ps) as Hj.
  destruct ps as [|a ps].
  - destruct r; reflexivity.
  - cbn [app] in *. destruct r; rewrite Hj, ?str_app_assoc; reflexivity.
Qed.

(** A name without slash, not empty and not a dot, is joined to a
    directory by writing it after a text that the directory alone
    determines. *)
Lemma joinpath_plain (dir : string) :
  ∃ prefix, ∀ n,
    plain n → n ≠ ""%string → n ≠ "."%string → joinpath dir n = prefix +:+ n.
Proof.
  exists (PurePosixPath.root (PurePosixPath.of_string dir) +:+
          match PurePosixPath.parts (PurePosixPath.of_string dir) with
          | [] => ""
          | ps => Str.join_with "/" ps +:+ "/"
          end)%string.
  intros n Hn Hne Hdot.
  assert (PurePosixPath.of_string n = PurePosixPath.mk "" [n]) as Hof.
  { unfold PurePosixPath.of_string, PurePosixPath.splitroot.
    rewrite (split_plain _ Hn).
    assert (Str.startswith "/" n = false) as ->.
    { destruct n as [|c n]; [done|]. rewrite startswith_slash.
      by apply plain_cons in Hn as [? _]. }
    rewrite filter_cons_True, filter_nil; [done|].
    unfold PurePosixPath.is_part.
    apply andb_true_iff; split; apply negb_true_iff, String.eqb_neq; done. }
  unfold joinpath. rewrite Hof. unfold PurePosixPath.truediv.
  cbn [PurePosixPath.root PurePosixPath.parts String.eqb].
  rewrite str_snoc, str_app_assoc.
  by destruct (PurePosixPath.parts (PurePosixPath.of_string dir)).
Qed.

Lemma dch_not_slash (z : Z) : Ascii.eqb (dch z) "/" = false.
Proof.
  assert (∀ k, (k < 10)%nat → Ascii.eqb (ascii_of_nat (48 + k)) "/" = false)
    as Hall.
  { intros k Hk. do 10 (destruct k as [|k]; [reflexivity|]). lia. }
  pose proof (Z.mod_pos_bound z 10 ltac:(lia)) as Hb. apply Hall. lia.
Qed.

(** The name [save_process_log] gives the file of a job. *)
Lemma saved_name_plain (u : string) (ts : datetime.t) :
  plain u →
  let n := (u +:+ "_" +:+ datetime.strftime_compact ts +:+ ".log")%string in
  plain n ∧ n ≠ ""%string ∧ n ≠ "."%string.
Proof.
  intros Hu n. split.
  - unfold n. apply plain_app. split; [done|].
    change (datetime.strftime_compact ts) with
      (String (dch (datetime.year ts / 100 / 10))
         (String (dch (datetime.year ts / 100))
         (String (dch (datetime.year ts / 10)) (String (dch (datetime.year ts))
         (String (dch (datetime.month ts / 10)) (String (dch (datetime.month ts))
         (String (dch (datetime.day ts / 10)) (String (dch (datetime.day ts))
         (String "_" (String (dch (datetime.hour ts / 10))
         (String (dch (datetime.hour ts))
         (String (dch (datetime.minute ts / 10)) (String (dch (datetime.minute ts))
         (String (dch (datetime.second ts / 10))
         (String (dch (datetime.second ts)) ""))))))))))))))).
    cbn [String.append]. rewrite !plain_cons, !dch_not_slash. by repeat split.
  - assert (String.length n = (String.length u + 20)%nat) as Hlen
      by (unfold n; by rewrite str_length_app).
    split; intros Heq; rewrite Heq in Hlen; simpl in Hlen; lia.
Qed.

Lemma str_app_inj (a b c : string) : a +:+ b = a +:+ c → b = c.
Proof. induction a as [|x a IH]; simpl; [done|]. intros [= H]. by apply IH. Qed.

Lemma str_app_inv_length (a c b d : string) :
  a +:+ b = c +:+ d → String.length b = String.length d → a = c.
Proof.
  revert c. induction a as [|x a IH]; intros [|y c] H Hlen; simpl in H.
  - done.
  - subst b. simpl in Hlen. rewrite str_length_app in Hlen. lia.
  - subst d. simpl in Hlen. rewrite str_length_app in Hlen. lia.
  - injection H as -> H. f_equal. by apply IH.
Qed.

(** For identifiers without slash, the path of a saved file determines
    the identifier: the time stamp has fifteen characters whatever the
    clock shows. *)
Lemma saved_path_inj (od u1 u2 : string) (t1 t2 : datetime.t) :
  plain u1 → plain u2 →
  joinpath od (u1 +:+ "_" +:+ datetime.strftime_compact t1 +:+ ".log")
  = joinpath od (u2 +:+ "_" +:+ datetime.strftime_compact t2 +:+ ".log") →
  u1 = u2.
Proof.
  intros H1 H2. destruct (joinpath_plain od) as [prefix Hp].
  destruct (saved_name_plain u1 t1 H1) as (? & ? & ?).
  destruct (saved_name_plain u2 t2 H2) as (? & ? & ?).
  rewrite !Hp by done. intros Heq%str_app_inj.
  by apply str_app_inv_length in Heq.
Qed.

(** ** The files [get_failed_process_logs] writes *)

Lemma failed_logs_loop_saved self e od l : ∀ m out m' out',
  Forall (λ p, plain (process_uuid p)) l →
  for_each (failed_logs_body self e od) l (m, out) = Ok (m', out') →
  (∀ u info, m !! u = Some info → plain u ∧ entry_saved od out u info) →
  ∀ u info, m' !! u = Some info → plain u ∧ entry_saved od out' u info.
Proof.
  induction l as [|p l IH]; intros m out m' out' Hpl H Hm; cbn [for_each] in H.
  - by injection H as <- <-.
  - apply Forall_cons in Hpl as [Hp Hpl].
    destruct (failed_logs_body self e od (m, out) p) as [[m1 out1]|] eqn:Hb;
      [|done]. rewrite result_bind_Ok in H. apply (IH _ _ _ _ Hpl H). clear H IH.
    unfold failed_logs_body, save_process_log in Hb.
    destruct (find_log_file _ _ _) as [f|].
    + destruct (writable e _); [|done]. rewrite result_bind_Ok in Hb.
      injection Hb as <- <-.
      intros u info. destruct (decide (u = process_uuid p)) as [->|Hne].
      * rewrite lookup_insert_eq. intros [= <-]. split; [done|].
        unfold entry_saved, found_info. simplify_map_eq.
        exists (now e (clock_reads out)). split; [done|]. eexists. split; [done|].
        cbn [disk]. by rewrite lookup_insert_eq.
      * rewrite lookup_insert_ne by done. intros Hu.
        destruct (Hm u info Hu) as [Hpu Hs]. split; [done|].
        unfold entry_saved in *.
        destruct (info !! "found") as [[| [] | |]|]; try done.
        destruct Hs as (ts & Hpath & log & Hl & Hd). exists ts. split; [done|].
        exists log. split; [done|]. cbn [disk]. rewrite lookup_insert_ne; [done|].
        intros Heq. apply saved_path_inj in Heq; [|done..]. by subst.
    + injection Hb as <- <-. intros u info.
      destruct (decide (u = process_uuid p)) as [->|Hne].
      * rewrite lookup_insert_eq. by intros [= <-].
      * rewrite lookup_insert_ne by done. apply Hm.
Qed.

(** X4: for jobs whose identifiers hold no slash, every entry of the
    result with [found = True] names, as [saved_path], the file of the
    output directory that is called after the job and a reading of the
    clock, and after the call that file holds the entry's [full_log]; an
    entry with any other [found] has no saved path. *)
Theorem saved_log_round_trip (self : LogRetriever) (e : env)
  (failed_processes : list process) (output_dir : option string)
  (out : outputs) (results : gmap string log_info) (out' : outputs) :
  Forall (λ p, plain (process_uuid p)) failed_processes →
  get_failed_process_logs self e failed_processes output_dir out
    = Ok (results, out') →
  let dir := default (joinpath (home e) "failed_process_logs") output_dir in
  ∀ u info, results !! u = Some info →
    (info !! "found" = Some (PBool true) →
     ∃ ts log,
       let path := joinpath dir
                     (u +:+ "_" +:+ datetime.strftime_compact ts +:+ ".log") in
       info !! "saved_path" = Some (PStr path) ∧
       info !! "full_log" = Some (PStr log) ∧
       disk out' !! path = Some log) ∧
    (info !! "found" ≠ Some (PBool true) →
     info !! "saved_path" = Some PNone).
Proof.
  intros Hpl H dir u info Hu. unfold get_failed_process_logs in H. fold dir in H.
  assert (entry_saved dir out' u info) as Hs.
  { apply (failed_logs_loop_saved _ _ _ _ _ _ _ _ Hpl H); [|done].
    intros u0 info0 H0. by rewrite lookup_empty in H0. }
  unfold entry_saved in Hs. split; intros Hf.
  - rewrite Hf in Hs. destruct Hs as (ts & Hp & log & Hl & Hd).
    by exists ts, log.
  - by destruct (info !! "found") as [[| [] | |]|].
Qed.

Lemma saved_log_round_trip_witness :
  Forall (λ p, plain (process_uuid p)) [job_failed; job_lost] ∧
  ∃ results out',
    get_failed_process_logs sample_retriever sample_env [job_failed; job_lost]
      None no_outputs = Ok (results, out') ∧
    ∀ u info, results !! u = Some info →
      (info !! "found" = Some (PBool true) →
       ∃ ts log,
         let path := joinpath "/home/reports/failed_process_logs"
                       (u +:+ "_" +:+ datetime.strftime_compact ts +:+ ".log") in
         info !! "saved_path" = Some (PStr path) ∧
         info !! "full_log" = Some (PStr log) ∧
         disk out' !! path = Some log) ∧
      (info !! "found" ≠ Some (PBool true) →
       info !! "saved_path" = Some PNone).
Proof.
  assert (Forall (λ p, plain (process_uuid p)) [job_failed; job_lost]) as Hpl
    by (by apply (bool_decide_unpack _)).
  split; [exact Hpl|].
  destruct (get_failed_process_logs_total sample_retriever sample_env
              (joinpath "/home/reports" "failed_process_logs")
              [job_failed; job_lost]
              (∅, no_outputs) (λ _, eq_refl)) as [[results out'] Hrun].
  exists results, out'. split; [exact Hrun|].
  exact (saved_log_round_trip sample_retriever sample_env [job_failed; job_lost]
           None no_outputs results out' Hpl Hrun).
Defined.

(** Without the condition on the identifiers the round trip fails: the
    files of [job-2] and of [./job-2], saved in the same second, are one
    file, and it holds the line of the second job only. *)
Example saved_log_overwritten :
  ('(results, out') ← get_failed_process_logs
                        (mk_LogRetriever "/var/log/perception" [log_dot])
                        sample_env [job_failed; job_dot]
                        (Some "/reports/failed_logs"%string) no_outputs;
   Ok (results !! "job-2" ≫= (.!! "saved_path"),
       results !! "./job-2" ≫= (.!! "saved_path"),
       results !! "job-2" ≫= (.!! "line_count"),
       disk out' !! "/reports/failed_logs/job-2_20260207_000000.log"))
  = Ok (Some (PStr "/reports/failed_logs/job-2_20260207_000000.log"),
        Some (PStr "/reports/failed_logs/job-2_20260207_000000.log"),
        Some (PInt 2),
        Some ("08:02:00 ./job-2 failed" +:+ Str.nl)).
Proof. vm_compute. reflexivity. Qed.

(** The clock and the disk across the loop. *)
Lemma failed_logs_loop_frame self e od l : ∀ m out m' out',
  for_each (failed_logs_body self e od) l (m, out) = Ok (m', out') →
  clock_reads out' = (clock_reads out + length (filter (has_log self) l))%nat ∧
  ∀ path,
    disk out' !! path = disk out !! path ∨
    ∃ p ts,
      p ∈ l ∧ has_log self p ∧ is_Some (disk out' !! path) ∧
      path = joinpath od (process_uuid p +:+ "_" +:+
                          datetime.strftime_compact ts +:+ ".log").
Proof.
  induction l as [|p l IH]; intros m out m' out' H; cbn [for_each] in H.
  - injection H as <- <-. split; [simpl; lia | by left].
  - destruct (failed_logs_body self e od (m, out) p) as [[m1 out1]|] eqn:Hb;
      [|done]. rewrite result_bind_Ok in H.
    destruct (IH _ _ _ _ H) as [Hclock Hdisk]. clear H IH.
    unfold failed_logs_body, save_process_log in Hb.
    destruct (find_log_file (listing self) (process_uuid p) (start_time p))
      as [f|] eqn:Hfind.
    + set (pf := joinpath od _) in Hb.
      destruct (writable e pf); [|done].
      rewrite result_bind_Ok in Hb. injection Hb as <- <-.
      cbn [clock_reads disk] in Hclock, Hdisk.
      assert (has_log self p) as Hp by (unfold has_log; by rewrite Hfind).
      split.
      * rewrite filter_cons_True by done. cbn [length]. lia.
      * intros path. destruct (Hdisk path) as [Heq|(q & ts & Hq & ? & ? & ?)].
        -- destruct (decide (path = pf)) as [->|Hne].
           ++ right. exists p, (now e (clock_reads out)).
              split; [apply list_elem_of_here|]. split; [done|]. split; [|done].
              rewrite Heq, lookup_insert_eq. by eexists.
           ++ left. by rewrite Heq, lookup_insert_ne.
        -- right. exists q, ts. split; [by apply list_elem_of_further | done].
    + injection Hb as <- <-.
      assert (¬ has_log self p) as Hp
        by (unfold has_log; rewrite Hfind; by intros [? ?]).
      split; [by rewrite filter_cons_False|].
      intros path. destruct (Hdisk path) as [Heq|(q & ts & Hq & ? & ? & ?)];
        [by left|].
      right. exists q, ts. split; [by apply list_elem_of_further | done].
Qed.

(** X5: a call that returns has read the clock once for every job with a
    log file, has removed no file, and has left every file of the disk as
    it was, apart from the files it saved: each of them is
    [str(output_dir / name)] for the name [<uuid>_<time stamp>.log] of a
    job of the input for which a log file was found. For an identifier
    without slash that name is a file name, so the path is the one of a
    file of the output directory: the text of the directory, which comes
    first, and the name. *)
Theorem get_failed_process_logs_writes (self : LogRetriever) (e : env)
  (failed_processes : list process) (output_dir : option string)
  (out : outputs) (results : gmap string log_info) (out' : outputs) :
  get_failed_process_logs self e failed_processes output_dir out
    = Ok (results, out') →
  let dir := default (joinpath (home e) "failed_process_logs") output_dir in
  clock_reads out'
    = (clock_reads out + length (filter (has_log self) failed_processes))%nat ∧
  (∀ path, is_Some (disk out !! path) → is_Some (disk out' !! path)) ∧
  ∃ prefix,
    ∀ path, disk out' !! path ≠ disk out !! path →
      ∃ p ts,
        let name := (process_uuid p +:+ "_" +:+
                     datetime.strftime_compact ts +:+ ".log")%string in
        p ∈ failed_processes ∧ has_log self p ∧
        path = joinpath dir name ∧
        (plain (process_uuid p) → path = prefix +:+ name).
Proof.
  intros H dir. unfold get_failed_process_logs in H. fold dir in H.
  destruct (failed_logs_loop_frame _ _ _ _ _ _ _ _ H) as [Hclock Hdisk].
  split; [exact Hclock|]. split.
  - intros path Hsome. destruct (Hdisk path) as [->|(p & ts & _ & _ & Hs & _)];
      done.
  - destruct (joinpath_plain dir) as [prefix Hprefix]. exists prefix.
    intros path Hne. destruct (Hdisk path) as [Heq|(p & ts & Hp & Hl & _ & ->)];
      [done|].
    exists p, ts. cbv zeta. split; [done|]. split; [done|]. split; [done|].
    intros Hpl. destruct (saved_name_plain _ ts Hpl) as (? & ? & ?).
    by apply Hprefix.
Qed.

Lemma get_failed_process_logs_writes_witness :
  ∃ results out',
    get_failed_process_logs sample_retriever sample_env [job_failed; job_lost]
      None no_outputs = Ok (results, out') ∧
    clock_reads out' = 1%nat.
Proof.
  destruct (get_failed_process_logs_total sample_retriever sample_env
              (joinpath "/home/reports" "failed_process_logs")
              [job_failed; job_lost]
              (∅, no_outputs) (λ _, eq_refl)) as [[results out'] Hrun].
  exists results, out'. split; [exact Hrun|].
  exact (proj1 (get_failed_process_logs_writes sample_retriever sample_env
                  [job_failed; job_lost] None no_outputs results out' Hrun)).
Defined.

(** ** The videos of the finished jobs *)

(** X6: [find_process_video] returns an address exactly when the folder
    of the job can be listed and the first video file of the listing, in
    the order of the listing, has that address. Later videos are never
    looked at: when the first video file carries no address the result
    is [None]. A status code that raises [HTTPError] gives [None]; any
    other exception of the request leaves the function. *)
Theorem find_process_video_first_video (self : OneDriveManager)
  (uuid key url : string) :
  (find_process_video self uuid key = Ok (Some url) ↔
   ∃ pre item post,
     children self (process_folder self uuid key) = Listed (pre ++ item :: post) ∧
     Forall (λ i, is_video i = false) pre ∧
     is_video item = true ∧
     webUrl item = Some url) ∧
  (children self (process_folder self uuid key) = HTTPStatusError →
   find_process_video self uuid key = Ok None) ∧
  (∀ e, find_process_video self uuid key = Raise e ↔
        children self (process_folder self uuid key) = RequestFailed e).
Proof.
  unfold find_process_video, process_folder.
  destruct (children self _) as [items| |e0]; (split; [|split]).
  - split.
    + intros [= H]. destruct (List.find is_video items) as [item|] eqn:Hfind;
        [|done]. simpl in H. revert Hfind.
      induction items as [|i items IH]; [done|]. simpl.
      destruct (is_video i) eqn:Hi.
      * intros [= ->]. by exists [], item, items.
      * intros (pre & it & post & [= ->] & Hpre & Hit & Hw)%IH.
        exists (i :: pre), it, post. by repeat constructor.
    + intros (pre & item & post & [= ->] & Hpre & Hit & Hw). f_equal.
      induction Hpre as [|i pre Hi _ IH]; simpl.
      * by rewrite Hit.
      * by rewrite Hi.
  - done.
  - intros e. split; [done|]. by intros.
  - split; [done|]. by intros (? & ? & ? & ? & _).
  - done.
  - intros e. split; [done|]. by intros.
  - split; [done|]. by intros (? & ? & ? & ? & _).
  - done.
  - intros e. split; [by intros [= ->] | by intros [= ->]].
Qed.

Lemma foldl_insert_lookup_ne {V : Type} (g : process → V) (l : list process) :
  ∀ (m : gmap string V) (u : string),
    u ∉ process_uuid <$> l →
    foldl (λ m p, <[process_uuid p := g p]> m) m l !! u = m !! u.
Proof.
  induction l as [|q l IH]; intros m u Hu; simpl; [done|].
  rewrite fmap_cons, not_elem_of_cons in Hu. destruct Hu as [Hq Hl].
  rewrite IH by done. by rewrite lookup_insert_ne.
Qed.

Lemma foldl_insert_lookup {V : Type} (g : process → V) (l : list process) :
  ∀ (m : gmap string V) (p : process),
    NoDup (process_uuid <$> l) → p ∈ l →
    foldl (λ m p, <[process_uuid p := g p]> m) m l !! process_uuid p
    = Some (g p).
Proof.
  induction l as [|q l IH]; intros m p Hnd Hp; [by apply elem_of_nil in Hp|].
  rewrite fmap_cons, NoDup_cons in Hnd. destruct Hnd as [Hq Hnd]. simpl.
  apply elem_of_cons in Hp as [->|Hp].
  - rewrite foldl_insert_lookup_ne by done. by rewrite lookup_insert_eq.
  - by apply IH.
Qed.

Lemma foldl_insert_dom {V : Type} (g : process → V) (l : list process) :
  ∀ (m : gmap string V),
    dom (foldl (λ m p, <[process_uuid p := g p]> m) m l)
    = dom m ∪ list_to_set (process_uuid <$> l).
Proof.
  induction l as [|q l IH]; intros m; simpl.
  - by rewrite (right_id_L ∅ (∪)).
  - rewrite IH, dom_insert_L, (comm_L (∪) {[process_uuid q]}).
    by rewrite (assoc_L (∪)).
Qed.

(** When the loop of [process_finished_processes] returns, it has stored
    for every job its name, its key and the address of its video. *)
Lemma process_finished_processes_Ok drive l : ∀ m data,
  for_each (finished_body drive) l m = Ok data →
  data = foldl (λ m p, <[process_uuid p :=
                  mk_finished_info (name p)
                    (key ← api_key p; if String.eqb key "" then None else Some key)
                    (key ← api_key p;
                     if String.eqb key "" then None
                     else match find_process_video drive (process_uuid p) key with
                          | Ok link => link
                          | Raise _ => None
                          end) p]> m) m l.
Proof.
  induction l as [|p l IH]; intros m data H; cbn [for_each] in H.
  - by injection H as <-.
  - destruct (finished_body drive m p) as [m1|] eqn:Hb; [|done].
    rewrite result_bind_Ok in H. rewrite (IH _ _ H). cbn [foldl]. f_equal.
    unfold finished_body in *.
    destruct (api_key p) as [key|]; [|by injection Hb as <-].
    cbn [mbind option_bind]. destruct (String.eqb key ""); [by injection Hb as <-|].
    destruct (find_process_video drive (process_uuid p) key) as [v|]; [|done].
    rewrite result_bind_Ok in Hb. by injection Hb as <-.
Qed.

Lemma process_finished_processes_total drive l : ∀ m,
  answers drive → ∃ data, for_each (finished_body drive) l m = Ok data.
Proof.
  intros m Ha. revert m. induction l as [|p l IH]; intros m; cbn [for_each];
    [by eexists|].
  assert (∃ m1, finished_body drive m p = Ok m1) as [m1 ->].
  { unfold finished_body. destruct (api_key p) as [key|]; [|by eexists].
    destruct (String.eqb key ""); [by eexists|].
    unfold find_process_video.
    destruct (children drive _) as [items| |e0] eqn:Hc;
      [by eexists | by eexists | by destruct (Ha _ _ Hc)]. }
  rewrite result_bind_Ok. apply IH.
Qed.

Lemma process_finished_processes_raise drive l : ∀ m ex,
  for_each (finished_body drive) l m = Raise ex →
  ∃ folder, children drive folder = RequestFailed ex.
Proof.
  induction l as [|p l IH]; intros m ex H; cbn [for_each] in H; [done|].
  destruct (finished_body drive m p) as [m1|ex1] eqn:Hb.
  - rewrite result_bind_Ok in H. by apply IH in H.
  - injection H as ->. unfold finished_body in Hb.
    destruct (api_key p) as [key|]; [|done].
    destruct (String.eqb key ""); [done|].
    unfold find_process_video in Hb.
    destruct (children drive _) as [items| |e0] eqn:Hc; [done..|].
    injection Hb as ->. by eexists.
Qed.

(** X7: for finished jobs with distinct identifiers,
    [process_finished_processes] returns when no request for a folder
    ends in an exception other than [HTTPError]; and whenever it returns,
    the dictionary has exactly their identifiers as keys, and the card of
    each job in the report links the video that [find_process_video]
    returns for the job's API key; a job without API key, with an empty
    one, or without such a video gets the row that says the video was
    not found. *)
Theorem finished_card_video (drive : OneDriveManager) (finished : list process)
  (p : process) :
  NoDup (process_uuid <$> finished) →
  p ∈ finished →
  (answers drive → ∃ finished_data,
     process_finished_processes drive finished = Ok finished_data) ∧
  ∀ finished_data,
    process_finished_processes drive finished = Ok finished_data →
    dom finished_data = list_to_set (process_uuid <$> finished) ∧
    finished_card finished_data p =
      finished_card_head p (process_uuid p) +:+
      from_option video_row video_missing_row (shown_video drive p) +:+
      finished_card_close.
Proof.
  intros Hnd Hp. split; [apply process_finished_processes_total|].
  intros finished_data H. unfold process_finished_processes in H.
  rewrite (process_finished_processes_Ok _ _ _ _ H). split.
  - by rewrite foldl_insert_dom, dom_empty_L, (left_id_L ∅ (∪)).
  - unfold finished_card. cbv zeta. rewrite (foldl_insert_lookup _ _ _ _ Hnd Hp).
    cbn [mbind option_bind video_link].
    unfold shown_video. destruct (api_key p) as [key|]; [|done].
    cbn [mbind option_bind]. destruct (String.eqb key ""); [done|].
    destruct (find_process_video drive (process_uuid p) key) as [[link|]|];
      [|done..].
    cbn [from_option]. by destruct (String.eqb link "").
Qed.

Lemma finished_card_video_witness :
  NoDup (process_uuid <$> [job_finished; job_queued]) ∧
  job_finished ∈ [job_finished; job_queued] ∧
  ∃ finished_data,
    process_finished_processes sample_drive [job_finished; job_queued]
      = Ok finished_data ∧
    finished_card finished_data job_finished =
      finished_card_head job_finished "job-1" +:+
      video_row "https://drive.example/job-1/clip" +:+ finished_card_close.
Proof.
  assert (NoDup (process_uuid <$> [job_finished; job_queued])) as Hnd
    by (by apply (bool_decide_unpack _)).
  assert (job_finished ∈ [job_finished; job_queued]) as Hin
    by apply list_elem_of_here.
  split; [exact Hnd|]. split; [exact Hin|].
  destruct (finished_card_video sample_drive [job_finished; job_queued]
              job_finished Hnd Hin) as [Htotal Hcard].
  assert (answers sample_drive) as Ha.
  { intros folder e. unfold sample_drive. cbn [children].
    by destruct (String.eqb folder _). }
  destruct (Htotal Ha) as [finished_data Hrun].
  exists finished_data. split; [exact Hrun|].
  exact (proj2 (Hcard finished_data Hrun)).
Defined.

(** ** What makes a run fail *)

(** X8: [fetch_processes] returns exactly when every row it keeps has a
    status text: a row without status of a skipped API key does no harm,
    one of any other key makes the call raise [AttributeError]. *)
Theorem fetch_processes_returns_iff (skip : gset string) (rows : list process) :
  ((∃ r, fetch_processes skip rows = Ok r) ↔
     Forall (λ p, kept skip p → is_Some (status_name p)) rows) ∧
  (∀ ex, fetch_processes skip rows = Raise ex →
     ex = AttributeError ∧
     Exists (λ p, kept skip p ∧ status_name p = None) rows).
Proof.
  rewrite fetch_processes_filter. unfold categorize_processes. split; [split|].
  - intros [r H].
    destruct (for_each _ _ _) as [c|] eqn:Hc; [|done].
    apply for_each_categorize in Hc as [Hall _].
    rewrite Forall_forall in Hall. apply Forall_forall. intros p Hp Hk.
    apply Hall. by apply list_elem_of_filter.
  - intros Hall.
    destruct (for_each_categorize_total (filter (kept skip) rows)
                (mk_categorized [] [] [] [])) as [c ->]; [|by eexists].
    rewrite Forall_forall in Hall. apply Forall_forall.
    intros p [Hk Hp]%list_elem_of_filter. by apply Hall.
  - intros ex H. destruct (for_each _ _ _) as [c|ex'] eqn:Hc; [done|].
    injection H as ->. apply for_each_categorize_raise in Hc as [-> Hex].
    split; [done|]. apply Exists_exists in Hex as (p & [Hk Hp]%list_elem_of_filter & Hn).
    apply Exists_exists. by exists p.
Qed.

(** The summary of every entry is a text. *)
Lemma failed_logs_loop_summary self e od l : ∀ m out m' out',
  for_each (failed_logs_body self e od) l (m, out) = Ok (m', out') →
  (∀ u info, m !! u = Some info → ∃ s, info !! "summary" = Some (PStr s)) →
  ∀ u info, m' !! u = Some info → ∃ s, info !! "summary" = Some (PStr s).
Proof.
  induction l as [|p l IH]; intros m out m' out' H Hm; cbn [for_each] in H.
  - by injection H as <- <-.
  - destruct (failed_logs_body self e od (m, out) p) as [[m1 out1]|] eqn:Hb;
      [|done]. rewrite result_bind_Ok in H. apply (IH _ _ _ _ H). clear H IH.
    unfold failed_logs_body, save_process_log in Hb.
    destruct (find_log_file _ _ _) as [f|].
    + destruct (writable e _); [|done]. rewrite result_bind_Ok in Hb.
      injection Hb as <- <-. intros u info.
      destruct (decide (u = process_uuid p)) as [->|Hne].
      * rewrite lookup_insert_eq. intros [= <-]. by eexists.
      * rewrite lookup_insert_ne by done. apply Hm.
    + injection Hb as <- <-. intros u info.
      destruct (decide (u = process_uuid p)) as [->|Hne].
      * rewrite lookup_insert_eq. intros [= <-]. by eexists.
      * rewrite lookup_insert_ne by done. apply Hm.
Qed.

(** The loop raises only when a file cannot be written. *)
Lemma failed_logs_loop_raise self e od l : ∀ st ex,
  for_each (failed_logs_body self e od) l st = Raise ex →
  ex = OSError ∧ ∃ path, writable e path = false.
Proof.
  induction l as [|p l IH]; intros st ex H; cbn [for_each] in H; [done|].
  destruct (failed_logs_body self e od st p) as [st1|ex1] eqn:Hb.
  - rewrite result_bind_Ok in H. by apply IH in H.
  - injection H as ->. destruct st as [m out].
    unfold failed_logs_body, save_process_log in Hb.
    destruct (find_log_file _ _ _) as [f|]; [|done].
    destruct (writable e _) eqn:Hw; [done|]. injection Hb as <-.
    split; [done|]. by eexists.
Qed.

Lemma process_failed_processes_summary lr e od failed out failed_logs out' :
  process_failed_processes lr e od failed out = Ok (failed_logs, out') →
  ∀ u info, failed_logs !! u = Some info → ∃ s, info !! "summary" = Some (PStr s).
Proof.
  destruct lr as [retriever|].
  - unfold process_failed_processes.
    destruct failed as [|p ps]; [by intros [= <- <-] u info ?%lookup_empty_Some|].
    unfold get_failed_process_logs. intros H.
    apply (failed_logs_loop_summary _ _ _ _ _ _ _ _ H).
    by intros u info ?%lookup_empty_Some.
  - rewrite process_failed_processes_None. intros [= <- <-] u info.
    rewrite lookup_foldl_insert_uuid.
    case_decide; [|by intros ?%lookup_empty_Some]. intros [= <-]. by eexists.
Qed.

Lemma process_failed_processes_raise lr e od failed out ex :
  process_failed_processes lr e od failed out = Raise ex →
  ex = OSError ∧ is_Some lr ∧ ∃ path, writable e path = false.
Proof.
  unfold process_failed_processes. destruct failed as [|p ps]; [done|].
  destruct lr as [retriever|]; [|done].
  unfold get_failed_process_logs. intros [-> Hw]%failed_logs_loop_raise.
  by split; [|split].
Qed.

(** A card is rendered whenever the summary of the entry is a text. *)
Lemma failed_card_Ok failed_logs p :
  (∀ u info, failed_logs !! u = Some info → ∃ s, info !! "summary" = Some (PStr s)) →
  ∃ card, failed_card failed_logs p = Ok card.
Proof.
  intros Hs. unfold failed_card. cbv zeta.
  destruct (failed_logs !! process_uuid p) as [info|] eqn:Hinfo.
  - destruct (Hs _ _ Hinfo) as [s Hsum]. cbn [from_option id]. rewrite Hsum.
    cbn [from_option id]. destruct (from_option truthy false (info !! "found"));
      rewrite result_bind_Ok; by eexists.
  - cbn [from_option id]. rewrite !lookup_empty. cbn [from_option].
    rewrite result_bind_Ok. by eexists.
Qed.

Lemma generate_html_report_Ok c failed_logs finished_data timestamp :
  (∀ u info, failed_logs !! u = Some info → ∃ s, info !! "summary" = Some (PStr s)) →
  ∃ html, _generate_html_report c failed_logs finished_data timestamp = Ok html.
Proof.
  intros Hs.
  assert (∃ cards, Forall2 (λ p card, failed_card failed_logs p = Ok card)
                     (failed c) cards) as [cards Hcards].
  { induction (failed c) as [|p ps [cards IH]]; [by exists []|].
    destruct (failed_card_Ok failed_logs p Hs) as [card Hcard].
    exists (card :: cards). by constructor. }
  destruct (generate_html_report_cards c failed_logs finished_data timestamp
              cards Hcards) as (html & H & _).
  by exists html.
Qed.

(** X9: the part of a run from the rows to the rendered report returns
    when every row it keeps has a status text, when, if a log directory
    is configured, the extracted logs can be written, and when no
    request of the video search ends in an exception other than
    [HTTPError]: the rendering of the report cannot fail on what the
    earlier steps produce. *)
Theorem run_returns (self : DailyReportOrchestrator) (e : env)
  (rows : list process) (out : outputs) :
  Forall (λ p, kept (skip_apikeys self) p → is_Some (status_name p)) rows →
  (is_Some (log_retriever self) → ∀ path, writable e path = true) →
  answers (onedrive_manager self) →
  ∃ html out', run self e rows out = Ok (html, out').
Proof.
  intros Hrows Hw Ha. unfold run.
  destruct (fetch_processes (skip_apikeys self) rows) as [[all c]|ex] eqn:Hfetch.
  - rewrite result_bind_Ok. cbn beta iota.
    destruct (process_failed_processes (log_retriever self) e (output_dir self)
                (failed c) out) as [[failed_logs out1]|ex] eqn:Hfailed.
    + rewrite result_bind_Ok. cbn beta iota.
      destruct (process_finished_processes_total (onedrive_manager self)
                  (finished c) ∅ Ha) as [finished_data Hfin].
      unfold process_finished_processes. rewrite Hfin, result_bind_Ok.
      destruct (generate_html_report_Ok c failed_logs finished_data
                  (now e (clock_reads out1))
                  (process_failed_processes_summary _ _ _ _ _ _ _ Hfailed))
        as [html ->].
      rewrite result_bind_Ok. by eexists _, _.
    + apply process_failed_processes_raise in Hfailed as (_ & Hlr & path & Hpath).
      by rewrite (Hw Hlr) in Hpath.
  - rewrite fetch_processes_filter in Hfetch. unfold categorize_processes in Hfetch.
    destruct (for_each_categorize_total (filter (kept (skip_apikeys self)) rows)
                (mk_categorized [] [] [] [])) as [c Hc].
    + rewrite Forall_forall in Hrows. apply Forall_forall.
      intros p [Hk Hp]%list_elem_of_filter. by apply Hrows.
    + by rewrite Hc in Hfetch.
Qed.

Lemma run_returns_witness :
  Forall (λ p, kept (skip_apikeys sample_orchestrator) p → is_Some (status_name p))
    (job_no_status_b :: sample_jobs) ∧
  answers (onedrive_manager sample_orchestrator) ∧
  ∃ html out',
    run sample_orchestrator sample_env (job_no_status_b :: sample_jobs) no_outputs
    = Ok (html, out').
Proof.
  assert (Forall (λ p, kept (skip_apikeys sample_orchestrator) p
                       → is_Some (status_name p))
            (job_no_status_b :: sample_jobs)) as Hrows
    by (by apply (bool_decide_unpack _)).
  assert (answers (onedrive_manager sample_orchestrator)) as Ha
    by (intros folder e; discriminate).
  split; [exact Hrows|]. split; [exact Ha|].
  exact (run_returns sample_orchestrator sample_env (job_no_status_b :: sample_jobs)
           no_outputs Hrows (λ _ _, eq_refl) Ha).
Defined.

(** X10: the part of a run from the rows to the rendered report raises
    for one of three reasons: a row it keeps has no status text
    ([AttributeError]); a log directory is configured and a file cannot
    be written ([OSError]); or a request of the video search ends in an
    exception other than [HTTPError], and that exception is the one that
    leaves the run. *)
Theorem run_raises (self : DailyReportOrchestrator) (e : env)
  (rows : list process) (out : outputs) (ex : exn) :
  run self e rows out = Raise ex →
  (ex = AttributeError ∧
   Exists (λ p, kept (skip_apikeys self) p ∧ status_name p = None) rows) ∨
  (ex = OSError ∧ is_Some (log_retriever self) ∧
   ∃ path, writable e path = false) ∨
  (∃ folder, children (onedrive_manager self) folder = RequestFailed ex).
Proof.
  unfold run. intros H.
  destruct (fetch_processes (skip_apikeys self) rows) as [[all c]|ex1] eqn:Hfetch.
  - rewrite result_bind_Ok in H. cbn beta iota in H.
    destruct (process_failed_processes (log_retriever self) e (output_dir self)
                (failed c) out) as [[failed_logs out1]|ex2] eqn:Hfailed.
    + rewrite result_bind_Ok in H. cbn beta iota in H.
      destruct (process_finished_processes (onedrive_manager self) (finished c))
        as [finished_data|ex3] eqn:Hfin.
      * rewrite result_bind_Ok in H.
        destruct (generate_html_report_Ok c failed_logs finished_data
                    (now e (clock_reads out1))
                    (process_failed_processes_summary _ _ _ _ _ _ _ Hfailed))
          as [html Hhtml].
        by rewrite Hhtml in H.
      * injection H as ->. right. right.
        by apply process_finished_processes_raise in Hfin.
    + injection H as ->. right. left.
      by apply process_failed_processes_raise in Hfailed.
  - injection H as ->. left.
    rewrite fetch_processes_filter in Hfetch. unfold categorize_processes in Hfetch.
    destruct (for_each _ _ _) as [c|ex'] eqn:Hc; [done|].
    injection Hfetch as ->. apply for_each_categorize_raise in Hc as [-> Hex].
    split; [done|].
    apply Exists_exists in Hex as (p & [Hk Hp]%list_elem_of_filter & Hn).
    apply Exists_exists. by exists p.
Qed.

Lemma run_raises_witness :
  run (mk_DailyReportOrchestrator ∅ None unreachable_drive "/reports")
    sample_env sample_jobs no_outputs = Raise RequestException ∧
  ∃ folder, children unreachable_drive folder = RequestFailed RequestException.
Proof.
  assert (run (mk_DailyReportOrchestrator ∅ None unreachable_drive "/reports")
            sample_env sample_jobs no_outputs = Raise RequestException) as H
    by reflexivity.
  split; [exact H|].
  destruct (run_raises _ _ _ _ _ H) as [[Hne _]|[[Hne _]|Hex]];
    [discriminate Hne | discriminate Hne | exact Hex].
Defined.

(** A row without status makes the same part of a run raise. *)
Example run_missing_status :
  run sample_orchestrator sample_env [job_finished; job_no_status] no_outputs
  = Raise AttributeError.
Proof. reflexivity. Qed.

(** X11: the jobs of the bucket [other] are counted in the total of the
    report and shown nowhere: two classifications that differ only in
    that bucket, with as many jobs in it, give the same report. *)
Theorem report_ignores_other (c c' : categorized)
  (failed_logs : gmap string log_info) (finished_data : gmap string finished_info)
  (timestamp : datetime.t) :
  finished c = finished c' → failed c = failed c' → running c = running c' →
  length (other c) = length (other c') →
  _generate_html_report c failed_logs finished_data timestamp
  = _generate_html_report c' failed_logs finished_data timestamp.
Proof.
  intros Hfi Hfa Hru Hlen. unfold _generate_html_report.
  by rewrite Hfi, Hfa, Hru, Hlen.
Qed.

Lemma report_ignores_other_witness :
  _generate_html_report (mk_categorized [job_finished] [] [] [job_queued]) ∅ ∅ noon
  = _generate_html_report (mk_categorized [job_finished] [] [] [job_running]) ∅ ∅ noon.
Proof.
  exact (report_ignores_other (mk_categorized [job_finished] [] [] [job_queued])
           (mk_categorized [job_finished] [] [] [job_running]) ∅ ∅ noon
           eq_refl eq_refl eq_refl eq_refl).
Defined.


(** ** The skip file *)

Lemma lstrip_head (s : string) :
  match Str.lstrip s with
  | String c _ => Str.isspace c = false
  | EmptyString => True
  end.
Proof.
  induction s as [|c s IH]; simpl; [done|].
  by destruct (Str.isspace c) eqn:Hc; [|rewrite Hc].
Qed.

Lemma rstrip_head (s : string) :
  match s with String c _ => Str.isspace c = false | EmptyString => True end →
  match Str.rstrip s with
  | String c _ => Str.isspace c = false
  | EmptyString => True
  end.
Proof.
  destruct s as [|c s]; simpl; [done|]. intros Hc.
  destruct (Str.rstrip s); by rewrite ?Hc.
Qed.

Lemma lstrip_fixed (s : string) :
  match s with String c _ => Str.isspace c = false | EmptyString => True end →
  Str.lstrip s = s.
Proof. destruct s as [|c s]; simpl; [done|]. by intros ->. Qed.

Lemma rstrip_idemp (s : string) : Str.rstrip (Str.rstrip s) = Str.rstrip s.
Proof.
  induction s as [|c s IH]; simpl; [done|].
  destruct (Str.rstrip s) as [|d r] eqn:Hr.
  - destruct (Str.isspace c) eqn:Hc; simpl; [done|]. by rewrite Hc.
  - simpl in *. by rewrite IH.
Qed.

(** Stripping a stripped text changes nothing. *)
Lemma strip_idemp (s : string) : Str.strip (Str.strip s) = Str.strip s.
Proof.
  unfold Str.strip.
  rewrite (lstrip_fixed (Str.rstrip (Str.lstrip s)))
    by apply rstrip_head, lstrip_head.
  apply rstrip_idemp.
Qed.

Lemma skip_line_elem_of (acc : gset string) (line key : string) :
  key ∈ skip_line acc line ↔
  key ∈ acc ∨ (Str.strip line = key ∧ key ≠ ""%string ∧ Str.startswith "#" key = false).
Proof.
  unfold skip_line. cbv zeta.
  destruct (String.eqb_spec (Str.strip line) "") as [He|He]; simpl.
  - split; [by left|]. intros [?|[ <- [? _]]]; done.
  - destruct (Str.startswith "#" (Str.strip line)) eqn:Hc; simpl.
    + split; [by left|]. intros [?|[ <- [_ ?]]]; [done|congruence].
    + rewrite elem_of_union, elem_of_singleton. split.
      * intros [?| ->]; [by left | by right].
      * intros [?|[ <- [_ _]]]; [by left | by right].
Qed.

Lemma foldl_skip_line_elem_of (lines : list string) : ∀ (acc : gset string) key,
  key ∈ foldl skip_line acc lines ↔
  key ∈ acc ∨ ∃ line, line ∈ lines ∧ Str.strip line = key ∧
                      key ≠ ""%string ∧ Str.startswith "#" key = false.
Proof.
  induction lines as [|l lines IH]; intros acc key; simpl.
  - split; [by left|]. by intros [?|(? & ?%elem_of_nil & _)].
  - rewrite IH, skip_line_elem_of. split.
    + intros [[?|?]|(line & ? & ?)]; [by left| |].
      * right. exists l. split; [apply list_elem_of_here | done].
      * right. exists line. split; [by apply list_elem_of_further | done].
    + intros [?|(line & [->|?]%elem_of_cons & ?)].
      * by left; left.
      * by left; right.
      * right. by exists line.
Qed.

Lemma load_skip_apikeys_Ok (skip_file : option text_file) (skip : gset string) :
  load_skip_apikeys skip_file = Ok skip →
  ∀ key, key ∈ skip ↔ ∃ f, skip_file = Some f ∧ listed f key.
Proof.
  unfold load_skip_apikeys. destruct skip_file as [f|].
  - cbv zeta. destruct (read_error f); [done|]. intros [= <-] key.
    rewrite foldl_skip_line_elem_of. unfold listed. split.
    + intros [?%elem_of_empty|?]; [done|]. by exists f.
    + intros (? & [= <-] & ?). by right.
  - intros [= <-] key. split; [by intros ?%elem_of_empty|]. by intros (? & ? & _).
Qed.

(** X12: without a skip file the set of keys is empty; an error while
    the file is read leaves the function as [OSError]; otherwise the set
    holds exactly the keys that stand on a line of the file, alone but
    for white space around them, that are not empty and do not begin with
    [#]. Every key of the set is free of white space at both ends. *)
Theorem load_skip_apikeys_keys (skip_file : option text_file) :
  match skip_file with
  | None => load_skip_apikeys skip_file = Ok ∅
  | Some f =>
      if read_error f then load_skip_apikeys skip_file = Raise OSError
      else ∃ keys, load_skip_apikeys skip_file = Ok keys ∧
             (∀ key, key ∈ keys ↔ listed f key) ∧
             (∀ key, key ∈ keys → Str.strip key = key)
  end.
Proof.
  destruct skip_file as [f|]; [|done].
  destruct (read_error f) eqn:Herr.
  - unfold load_skip_apikeys. by rewrite Herr.
  - destruct (load_skip_apikeys (Some f)) as [keys|] eqn:Hload;
      [|unfold load_skip_apikeys in Hload; by rewrite Herr in Hload].
    exists keys. split; [done|].
    assert (∀ key, key ∈ keys ↔ listed f key) as Hk.
    { intros key. rewrite (load_skip_apikeys_Ok _ _ Hload). split.
      - by intros (? & [= <-] & ?).
      - intros ?. by exists f. }
    split; [exact Hk|].
    intros key (line & _ & <- & _)%Hk. apply strip_idemp.
Qed.

Example load_skip_apikeys_sample :
  load_skip_apikeys (Some sample_skip_file) = Ok {["key-b"%string]}.
Proof. by vm_compute. Qed.

(** X13: with the skip set read from the skip file, [fetch_processes]
    hands on, in the order of the rows, exactly the rows whose API key is
    not listed in the file. A row without API key is always handed on,
    and so is every row when there is no skip file. *)
Theorem fetch_processes_skip_file (skip_file : option text_file)
  (skip : gset string) (rows all : list process) (c : categorized) :
  load_skip_apikeys skip_file = Ok skip →
  fetch_processes skip rows = Ok (all, c) →
  all `sublist_of` rows ∧
  ∀ p, p ∈ all ↔
       p ∈ rows ∧
       ∀ f key, skip_file = Some f → api_key p = Some key → ¬ listed f key.
Proof.
  intros Hload Hfetch. rewrite fetch_processes_filter in Hfetch.
  destruct (categorize_processes _) as [c'|]; [|done].
  rewrite result_bind_Ok in Hfetch. injection Hfetch as <- _.
  split; [apply sublist_filter|].
  intros p. rewrite list_elem_of_filter. unfold kept, in_skip.
  pose proof (load_skip_apikeys_Ok _ _ Hload) as Hskip. split.
  - intros [Hk Hp]. split; [done|]. intros f key Hf Hkey Hl.
    rewrite Hkey in Hk. apply bool_decide_eq_false in Hk. apply Hk, Hskip.
    by exists f.
  - intros [Hp Hn]. split; [|done]. destruct (api_key p) as [key|]; [|done].
    apply bool_decide_eq_false. intros (f & Hf & Hl)%Hskip. by apply (Hn f key).
Qed.

Lemma fetch_processes_skip_file_witness :
  load_skip_apikeys (Some sample_skip_file) = Ok {["key-b"%string]} ∧
  fetch_processes {["key-b"%string]} sample_jobs
    = Ok ([job_finished; job_failed; job_queued],
          mk_categorized [job_finished] [job_failed] [] [job_queued]) ∧
  [job_finished; job_failed; job_queued] `sublist_of` sample_jobs.
Proof.
  assert (load_skip_apikeys (Some sample_skip_file) = Ok {["key-b"%string]})
    as Hload by (by vm_compute).
  assert (fetch_processes {["key-b"%string]} sample_jobs
          = Ok ([job_finished; job_failed; job_queued],
                mk_categorized [job_finished] [job_failed] [] [job_queued]))
    as Hfetch by (by vm_compute).
  split; [exact Hload|]. split; [exact Hfetch|].
  exact (proj1 (fetch_processes_skip_file _ _ _ _ _ Hload Hfetch)).
Defined.

(** ** The candidates are logs of the day of the start time *)

(** The characters of the padded fields are decimal digits. *)
Lemma dch_facts (z : Z) :
  datetime.is_dash (dch z) = false ∧ datetime.is_T (dch z) = false ∧
  Ascii.eqb (dch z) "_" = false ∧
  Str.digit_val (dch z) = Some (z mod 10) ∧
  ∀ s, datetime.field_d (String (dch z) s) = datetime.field2 1 31 (String (dch z) s).
Proof.
  assert (∀ k, (k < 10)%nat →
            let c := ascii_of_nat (48 + k) in
            datetime.is_dash c = false ∧ datetime.is_T c = false ∧
            Ascii.eqb c "_" = false ∧
            Str.digit_val c = Some (Z.of_nat k) ∧
            ∀ s, datetime.field_d (String c s) = datetime.field2 1 31 (String c s))
    as Hall.
  { intros k Hk.
    do 10 (destruct k as [|k]; [repeat split; reflexivity|]). lia. }
  pose proof (Z.mod_pos_bound z 10 ltac:(lia)) as Hb.
  specialize (Hall (Z.to_nat (z mod 10)) ltac:(lia)). cbv zeta in Hall.
  by rewrite Z2Nat.id in Hall by lia.
Qed.

Lemma valid_bounds (d : datetime.t) :
  datetime.valid d = true →
  1 ≤ datetime.year d ≤ 9999 ∧ 1 ≤ datetime.month d ≤ 12 ∧
  1 ≤ datetime.day d ≤ 31 ∧ 0 ≤ datetime.hour d ≤ 23 ∧
  0 ≤ datetime.minute d ≤ 59 ∧ 0 ≤ datetime.second d ≤ 59 ∧
  0 ≤ datetime.microsecond d ≤ 999999.
Proof.
  unfold datetime.valid. rewrite !andb_true_iff, !Z.leb_le.
  intros [[[[[[[[[[[[[? ?] ?] ?] ?] Hd] ?] ?] ?] ?] ?] ?] ?] ?].
  assert (datetime.days_in_month (datetime.year d) (datetime.month d) ≤ 31).
  { unfold datetime.days_in_month. destruct (_ && _); [lia|].
    assert (datetime.month d = 1 ∨ datetime.month d = 2 ∨ datetime.month d = 3 ∨
            datetime.month d = 4 ∨ datetime.month d = 5 ∨ datetime.month d = 6 ∨
            datetime.month d = 7 ∨ datetime.month d = 8 ∨ datetime.month d = 9 ∨
            datetime.month d = 10 ∨ datetime.month d = 11 ∨ datetime.month d = 12)
      as Hm by lia.
    repeat destruct Hm as [->|Hm]; try rewrite Hm; simpl; lia. }
  lia.
Qed.

Lemma partition_cons_false (is_sep : ascii → bool) (c : ascii) (s : string) :
  is_sep c = false →
  Str.partition is_sep (String c s)
  = '(a, b) ← Str.partition is_sep s; Some (String c a, b).
Proof. simpl. by intros ->. Qed.

Lemma partition_cons_true (is_sep : ascii → bool) (c : ascii) (s : string) :
  is_sep c = true → Str.partition is_sep (String c s) = Some (""%string, s).
Proof. simpl. by intros ->. Qed.

Lemma digits_val_dch (acc z : Z) (s : string) :
  Str.digits_val acc (String (dch z) s) = Str.digits_val (10 * acc + z mod 10) s.
Proof.
  cbn [Str.digits_val]. by rewrite (proj1 (proj2 (proj2 (proj2 (dch_facts z))))).
Qed.

Lemma field_Y_pad (Y : Z) :
  0 ≤ Y ≤ 9999 →
  datetime.field_Y (String (dch (Y / 100 / 10)) (String (dch (Y / 100))
                   (String (dch (Y / 10)) (String (dch Y) "")))) = Some Y.
Proof.
  intros HY. unfold datetime.field_Y, Str.parse_int. cbn [String.length Nat.eqb].
  rewrite !digits_val_dch. cbn [Str.digits_val]. f_equal.
  Z.div_mod_to_equations. lia.
Qed.

Lemma field2_pad (lo hi z : Z) :
  0 ≤ z ≤ 99 → lo ≤ z ≤ hi →
  datetime.field2 lo hi (String (dch (z / 10)) (String (dch z) "")) = Some z.
Proof.
  intros Hz Hr. unfold datetime.field2, Str.parse_int.
  cbn [String.length Nat.leb andb]. rewrite !digits_val_dch. cbn [Str.digits_val].
  replace (10 * (10 * 0 + (z / 10) mod 10) + z mod 10) with z
    by (Z.div_mod_to_equations; lia).
  cbn [mbind option_bind].
  by rewrite (proj2 (Z.leb_le _ _) (proj1 Hr)), (proj2 (Z.leb_le _ _) (proj2 Hr)).
Qed.

Lemma strptime_date_prefix (start lt : datetime.t) (x : string) :
  datetime.valid start = true →
  datetime.strptime (datetime.strftime_date start +:+ "T" +:+ x) = Some lt →
  datetime.year lt = datetime.year start ∧
  datetime.month lt = datetime.month start ∧
  datetime.day lt = datetime.day start ∧
  datetime.valid lt = true ∧ datetime.microsecond lt = 0.
Proof.
  intros Hv H. apply valid_bounds in Hv as (HY & HM & HD & _).
  set (Y := datetime.year start) in *. set (M := datetime.month start) in *.
  set (D := datetime.day start) in *.
  set (sY := String (dch (Y / 100 / 10)) (String (dch (Y / 100))
             (String (dch (Y / 10)) (String (dch Y) "")))).
  set (sm := String (dch (M / 10)) (String (dch M) "")).
  set (sd := String (dch (D / 10)) (String (dch D) "")).
  assert (datetime.strftime_date start +:+ "T" +:+ x =
          sY +:+ String "-" (sm +:+ String "-" (sd +:+ String "T" x)))
    as E by reflexivity.
  assert (∀ r, Str.partition datetime.is_dash (sY +:+ String "-" r) = Some (sY, r))
    as P1.
  { intros r. unfold sY. cbn [String.append].
    rewrite !partition_cons_false by apply dch_facts.
    by rewrite partition_cons_true. }
  assert (∀ r, Str.partition datetime.is_dash (sm +:+ String "-" r) = Some (sm, r))
    as P2.
  { intros r. unfold sm. cbn [String.append].
    rewrite !partition_cons_false by apply dch_facts.
    by rewrite partition_cons_true. }
  assert (∀ r, Str.partition datetime.is_T (sd +:+ String "T" r) = Some (sd, r))
    as P3.
  { intros r. unfold sd. cbn [String.append].
    rewrite !partition_cons_false by apply dch_facts.
    by rewrite partition_cons_true. }
  rewrite E in H. clear E. unfold datetime.strptime in H.
  rewrite P1 in H. cbn [mbind option_bind] in H.
  rewrite P2 in H. cbn [mbind option_bind] in H.
  rewrite P3 in H. cbn [mbind option_bind] in H.
  destruct (Str.partition datetime.is_dash x) as [[sH r4]|]; [|done].
  cbn [mbind option_bind] in H.
  destruct (Str.partition datetime.is_dash r4) as [[sM sS]|]; [|done].
  cbn [mbind option_bind] in H.
  unfold sY, sm, sd in H.
  rewrite field_Y_pad in H by lia. cbn [mbind option_bind] in H.
  rewrite field2_pad in H by lia. cbn [mbind option_bind] in H.
  rewrite (proj2 (proj2 (proj2 (proj2 (dch_facts _))))) in H.
  rewrite field2_pad in H by lia. cbn [mbind option_bind] in H.
  destruct (datetime.field2 0 23 sH) as [h|]; [|done]. cbn [mbind option_bind] in H.
  destruct (datetime.field2 0 59 sM) as [mi|]; [|done]. cbn [mbind option_bind] in H.
  destruct (datetime.field2 0 61 sS) as [se|]; [|done]. cbn [mbind option_bind] in H.
  destruct (datetime.valid _) eqn:Hvalid; [|done]. by injection H as <-.
Qed.

Lemma str_take_app (s p : string) (n : nat) :
  Str.take (String.length s + n) (s +:+ p) = s +:+ Str.take n p.
Proof. induction s as [|c s IH]; simpl; [done | by rewrite IH]. Qed.

Lemma split_head_cons_ne (sep c : ascii) (s : string) :
  Ascii.eqb c sep = false →
  Str.split_head sep (String c s) = String c (Str.split_head sep s).
Proof. simpl. by intros ->. Qed.

(** Two ways to cut a text: a prefix that leaves room for the suffix lies
    inside the part before the suffix. *)
Lemma str_prefix_overlap (a post pre suf : string) :
  a +:+ post = pre +:+ suf →
  (String.length a + String.length suf ≤ String.length (a +:+ post))%nat →
  ∃ mid, pre = a +:+ mid.
Proof.
  revert pre. induction a as [|c a IH]; intros pre H Hlen; [by exists pre|].
  destruct pre as [|d pre]; simpl in H.
  - subst suf. simpl in Hlen. lia.
  - injection H as -> H. simpl in Hlen.
    destruct (IH pre H) as [mid ->]; [lia|]. by exists mid.
Qed.

(** The time stamp read off the name of a candidate begins with the date
    of the start time. *)
Lemma candidate_timestamp (files : list Path.t) (start : datetime.t) (f : Path.t) :
  f ∈ candidates files start →
  ∃ x, Str.split_head "_" (Path.stem f)
       = datetime.strftime_date start +:+ "T" +:+ x.
Proof.
  unfold candidates, glob. rewrite merge_sort_Permutation, list_elem_of_filter.
  intros [Hm _]. unfold glob_match in Hm.
  apply andb_true_iff in Hm as [[Hstart Hend]%andb_true_iff Hlen].
  apply Nat.leb_le in Hlen.
  apply startswith_inv in Hstart as [post Hpost].
  apply endswith_inv in Hend as [pre Hname].
  destruct (str_prefix_overlap (datetime.strftime_date start +:+ "T") post pre
              "_perception_api.log") as [mid ->].
  { by rewrite <- Hpost, <- Hname. }
  { by rewrite <- Hpost. }
  set (p := (datetime.strftime_date start +:+ "T") +:+ mid) in *.
  unfold Path.stem. rewrite Hname, rfind_log, str_length_app.
  simpl (String.length "_perception_api.log").
  replace ((0 <? String.length p + 15)%nat
           && (String.length p + 15 <? String.length p + 19 - 1)%nat) with true
    by (symmetry; apply andb_true_iff; split; apply Nat.ltb_lt; lia).
  rewrite str_take_app. simpl (Str.take 15 _).
  exists (Str.split_head "_" (mid +:+ "_perception_api")).
  unfold p. rewrite !str_app_assoc.
  change (datetime.strftime_date start) with
    (String (dch (datetime.year start / 100 / 10))
       (String (dch (datetime.year start / 100))
       (String (dch (datetime.year start / 10)) (String (dch (datetime.year start))
       (String "-" (String (dch (datetime.month start / 10))
       (String (dch (datetime.month start))
       (String "-" (String (dch (datetime.day start / 10))
       (String (dch (datetime.day start)) "")))))))))).
  cbn [String.append].
  by rewrite !split_head_cons_ne by first [apply dch_facts | reflexivity].
Qed.

(** X14: for a start time with a year of four digits, the candidates are
    files of the day of the start time only: a time stamp read off the
    name of a candidate lies on that day. So the
    test for a log that began more than 24 hours before the job never
    excludes a file, and for a start time without time zone a candidate
    with a time stamp passes the time check exactly when its log began at
    most one hour after the job. A log that began the evening before the
    job is never looked at. *)
Theorem candidates_same_day (files : list Path.t) (start : datetime.t)
  (f : Path.t) (lt : datetime.t) :
  datetime.valid start = true →
  1000 ≤ datetime.year start →
  f ∈ candidates files start →
  log_time f = Some lt →
  (datetime.year lt = datetime.year start ∧
   datetime.month lt = datetime.month start ∧
   datetime.day lt = datetime.day start) ∧
  (datetime.tzinfo start = None →
   (admissible start f ↔
    datetime.micros lt ≤ datetime.micros start + datetime.seconds 3600)).
Proof.
  intros Hv _ Hf Hlt. destruct (candidate_timestamp _ _ _ Hf) as [x Hx].
  pose proof Hlt as Hlt'. unfold log_time in Hlt'. rewrite Hx in Hlt'.
  apply (strptime_date_prefix _ _ _ Hv) in Hlt' as (Hy & Hm & Hd & Hvlt & Hus).
  split; [done|]. intros Hnaive.
  rewrite (admissible_window _ _ _ Hnaive Hlt). unfold within.
  apply valid_bounds in Hv as (_ & _ & _ & ? & ? & ? & ?).
  apply valid_bounds in Hvlt as (_ & _ & _ & ? & ? & ? & ?).
  unfold datetime.micros, datetime.toordinal, datetime.seconds.
  rewrite Hy, Hm, Hd.
  set (o := datetime.ymd2ord _ _ _). lia.
Qed.

Lemma candidates_same_day_witness :
  datetime.valid noon = true ∧
  log_B ∈ candidates [log_C; log_A; log_B] noon ∧
  log_time log_B = Some (datetime.mk 2026 2 6 10 0 0 0 None) ∧
  admissible noon log_B.
Proof.
  assert (log_B ∈ candidates [log_C; log_A; log_B] noon) as Hin.
  { assert (candidates [log_C; log_A; log_B] noon = [log_A; log_B; log_C]) as ->
      by (by vm_compute).
    apply list_elem_of_further, list_elem_of_here. }
  assert (log_time log_B = Some (datetime.mk 2026 2 6 10 0 0 0 None)) as Hlt
    by (by vm_compute).
  split; [reflexivity|]. split; [exact Hin|]. split; [exact Hlt|].
  apply (proj2 (candidates_same_day [log_C; log_A; log_B] noon log_B _
                  eq_refl ltac:(by vm_compute) Hin Hlt) eq_refl).
  by vm_compute.
Defined.


(** ** A failed job from the rows to the report *)

(** The entry of a job with a log file, for jobs with distinct
    identifiers. *)
Lemma failed_logs_loop_found self e od l : ∀ m out m' out' p f,
  for_each (failed_logs_body self e od) l (m, out) = Ok (m', out') →
  NoDup (process_uuid <$> l) → p ∈ l →
  find_log_file (listing self) (process_uuid p) (start_time p) = Some f →
  ∃ info,
    m' !! process_uuid p = Some info ∧
    info !! "found" = Some (PBool true) ∧
    info !! "summary" =
      Some (PStr (extract_error_summary (extract_process_logs f (process_uuid p)) 50)) ∧
    info !! "full_log" =
      Some (PStr (Str.join (extract_process_logs f (process_uuid p)))).
Proof.
  induction l as [|q l IH]; intros m out m' out' p f H Hnd Hp Hfind;
    [by apply elem_of_nil in Hp|].
  cbn [for_each] in H. rewrite fmap_cons, NoDup_cons in Hnd.
  destruct Hnd as [Hq Hnd].
  destruct (failed_logs_body self e od (m, out) q) as [[m1 out1]|] eqn:Hb; [|done].
  rewrite result_bind_Ok in H. apply elem_of_cons in Hp as [->|Hp].
  - apply get_failed_process_logs_loop in H as (_ & _ & Hother & _).
    rewrite (Hother _ Hq). clear Hother.
    unfold failed_logs_body, save_process_log in Hb. rewrite Hfind in Hb.
    destruct (writable e _); [|done]. rewrite result_bind_Ok in Hb.
    injection Hb as <- <-. rewrite lookup_insert_eq. eexists. split; [done|].
    unfold found_info. by simplify_map_eq.
  - by apply (IH _ _ _ _ _ _ H).
Qed.

(** The card of a job whose entry says [found = True]. *)
Lemma failed_card_found_Ok failed_logs p info s path :
  failed_logs !! process_uuid p = Some info →
  info !! "found" = Some (PBool true) →
  info !! "summary" = Some (PStr s) →
  info !! "saved_path" = Some (PStr path) →
  failed_card failed_logs p =
    Ok (failed_card_head p (process_uuid p) +:+
        failed_card_found (Str.replace (ascii_of_nat 10) "<br>" s) path +:+
        failed_card_close).
Proof.
  intros Hinfo Hfound Hs Hpath. unfold failed_card. cbv zeta. rewrite Hinfo.
  cbn [from_option id]. rewrite Hfound, Hs, Hpath. cbn [from_option id truthy py_str].
  by rewrite !result_bind_Ok, str_app_assoc.
Qed.

Lemma Forall2_card_elem_of {A : Type} (card : A → result string) (l : list A)
  (cards : list string) (x : A) (c : string) :
  Forall2 (λ x c, card x = Ok c) l cards → x ∈ l → card x = Ok c → c ∈ cards.
Proof.
  intros HF Hx Hc. induction HF as [|y d l cards Hy _ IH];
    [by apply elem_of_nil in Hx|].
  apply elem_of_cons in Hx as [->|Hx].
  - rewrite Hc in Hy. injection Hy as ->. apply list_elem_of_here.
  - by apply list_elem_of_further, IH.
Qed.

(** X15: a failed job of a run with a log directory whose log file is
    found: the report holds the summary of the job's log lines, with
    line ends turned into [<br>] and nothing else changed, and the path
    of the file of the job in the directory [failed_logs] of the output
    directory; after the run that file holds exactly those log lines.
    The identifiers of the rows are distinct and hold no slash. *)
Theorem run_reports_failed_log (self : DailyReportOrchestrator)
  (lr : LogRetriever) (e : env) (rows : list process) (out : outputs)
  (html : string) (out' : outputs) (p : process) (f : Path.t) :
  run self e rows out = Ok (html, out') →
  log_retriever self = Some lr →
  NoDup (process_uuid <$> rows) →
  Forall (λ p, plain (process_uuid p)) rows →
  p ∈ rows →
  kept (skip_apikeys self) p →
  bucket_of p = Some Failed →
  find_log_file (listing lr) (process_uuid p) (start_time p) = Some f →
  let log_lines := extract_process_logs f (process_uuid p) in
  ∃ ts,
    let path := joinpath (joinpath (output_dir self) "failed_logs")
                  (process_uuid p +:+ "_" +:+ datetime.strftime_compact ts
                   +:+ ".log") in
    disk out' !! path = Some (Str.join log_lines) ∧
    Str.contains
      (failed_card_found
         (Str.replace (ascii_of_nat 10) "<br>" (extract_error_summary log_lines 50))
         path) html = true.
Proof.
  intros Hrun Hlr Hnd Hplain Hp Hkept Hfailed Hfind log_lines. unfold run in Hrun.
  rewrite fetch_processes_filter in Hrun.
  destruct (categorize_processes _) as [c|] eqn:Hc; [|done].
  rewrite !result_bind_Ok in Hrun. cbn beta iota in Hrun.
  pose proof (categorize_processes_lists _ _ Hc Failed) as Hfl.
  cbn [bucket_list] in Hfl.
  assert (p ∈ failed c) as Hpf.
  { rewrite Hfl. apply list_elem_of_filter. split; [done|].
    by apply list_elem_of_filter. }
  assert (NoDup (process_uuid <$> failed c)) as Hndf.
  { eapply sublist_NoDup; [exact Hnd|]. rewrite Hfl. apply fmap_sublist.
    etrans; apply sublist_filter. }
  assert (Forall (λ p, plain (process_uuid p)) (failed c)) as Hplf.
  { rewrite Forall_forall in Hplain. apply Forall_forall. intros q Hq.
    apply Hplain. rewrite Hfl in Hq.
    by apply list_elem_of_filter in Hq as [_ [_ Hq]%list_elem_of_filter]. }
  destruct (process_failed_processes _ _ _ _ _) as [[failed_logs out1]|] eqn:Hfp;
    [|done].
  rewrite result_bind_Ok in Hrun. cbn beta iota in Hrun.
  destruct (process_finished_processes _ _) as [finished_data|]; [|done].
  rewrite result_bind_Ok in Hrun.
  destruct (_generate_html_report _ _ _ _) as [html1|] eqn:Hhtml; [|done].
  rewrite result_bind_Ok in Hrun. injection Hrun as <- <-.
  rewrite Hlr in Hfp. unfold process_failed_processes in Hfp.
  destruct (failed c) as [|p0 ps] eqn:Hfc; [by apply elem_of_nil in Hpf|].
  rewrite <- Hfc in *. unfold get_failed_process_logs in Hfp.
  cbn [from_option id] in Hfp.
  destruct (failed_logs_loop_found _ _ _ _ _ _ _ _ _ _ Hfp Hndf Hpf Hfind)
    as (info & Hinfo & Hfound & Hsum & Hfull).
  assert (entry_saved (joinpath (output_dir self) "failed_logs") out1
            (process_uuid p) info) as Hsaved.
  { apply (failed_logs_loop_saved _ _ _ _ _ _ _ _ Hplf Hfp); [|done].
    by intros u0 info0 ?%lookup_empty_Some. }
  unfold entry_saved in Hsaved. rewrite Hfound in Hsaved.
  destruct Hsaved as (ts & Hpath & log & Hlog & Hdisk).
  rewrite Hfull in Hlog. injection Hlog as <-.
  exists ts. cbv zeta. split; [exact Hdisk|].
  pose proof (failed_card_found_Ok _ _ _ _ _ Hinfo Hfound Hsum Hpath) as Hcard.
  assert (∃ cards, Forall2 (λ p card, failed_card failed_logs p = Ok card)
                     (failed c) cards) as [cards Hcards].
  { assert (∀ u i, failed_logs !! u = Some i → ∃ s, i !! "summary" = Some (PStr s))
      as Hs.
    { apply (failed_logs_loop_summary _ _ _ _ _ _ _ _ Hfp).
      by intros u0 info0 ?%lookup_empty_Some. }
    clear -Hs. induction (failed c) as [|q qs [cards IH]]; [by exists []|].
    destruct (failed_card_Ok failed_logs q Hs) as [card Hq].
    exists (card :: cards). by constructor. }
  destruct (generate_html_report_cards c failed_logs finished_data
              (now e (clock_reads out1)) cards Hcards) as (html2 & Hhtml2 & Hin).
  rewrite Hhtml in Hhtml2. injection Hhtml2 as <-.
  pose proof (Hin _ (Forall2_card_elem_of _ _ _ _ _ Hcards Hpf Hcard)) as Hc1.
  apply contains_iff in Hc1 as (pre & post & ->).
  apply contains_iff. exists (pre +:+ failed_card_head p (process_uuid p)),
    (failed_card_close +:+ post). by rewrite !str_app_assoc.
Qed.

Lemma run_reports_failed_log_witness :
  Forall (λ p, plain (process_uuid p)) sample_jobs ∧
  ∃ html out' ts,
    let path := joinpath (joinpath "/reports" "failed_logs")
                  ("job-2" +:+ "_" +:+ datetime.strftime_compact ts +:+ ".log") in
    run sample_orchestrator_logs sample_env sample_jobs no_outputs = Ok (html, out') ∧
    disk out' !! path = Some (Str.join (extract_process_logs log_B "job-2")) ∧
    Str.contains
      (failed_card_found
         (Str.replace (ascii_of_nat 10) "<br>"
            (extract_error_summary (extract_process_logs log_B "job-2") 50))
         path) html = true.
Proof.
  assert (Forall (λ p, plain (process_uuid p)) sample_jobs) as Hpl
    by (by apply (bool_decide_unpack _)).
  split; [exact Hpl|].
  destruct (run sample_orchestrator_logs sample_env sample_jobs no_outputs)
    as [[html out']|ex] eqn:Hrun; [|by vm_compute in Hrun].
  assert (NoDup (process_uuid <$> sample_jobs)) as Hnd
    by (by apply (bool_decide_unpack _)).
  assert (job_failed ∈ sample_jobs) as Hin
    by apply list_elem_of_further, list_elem_of_here.
  destruct (run_reports_failed_log sample_orchestrator_logs sample_retriever
              sample_env sample_jobs no_outputs html out' job_failed log_B
              Hrun eq_refl Hnd Hpl Hin eq_refl eq_refl eq_refl) as (ts & Hdisk & Hc).
  exists html, out', ts. split; [reflexivity|]. split; [exact Hdisk | exact Hc].
Defined.

(** ** Identifiers are matched as substrings *)

Lemma contains_trans (u u' line : string) :
  Str.contains u u' = true → Str.contains u' line = true →
  Str.contains u line = true.
Proof.
  rewrite !contains_iff. intros (a & b & ->) (pre & post & ->).
  exists (pre +:+ a), (b +:+ post). by rewrite !str_app_assoc.
Qed.

Lemma contains_uuid_substring (u u' : string) (f : Path.t) :
  Str.contains u u' = true →
  _contains_uuid f u' = true → _contains_uuid f u = true.
Proof.
  intros Hu. unfold _contains_uuid. rewrite !existsb_exists.
  intros (line & Hin & Hc). exists line. split; [done|].
  by apply (contains_trans u u').
Qed.

(** X16: the identifier is looked for as a substring of the log lines,
    so an identifier that is part of another one takes the other's lines
    too: every file that matches the longer identifier matches the
    shorter one, every line extracted for the longer one is extracted for
    the shorter one, and when a log file is found for the longer one, a
    log file is found for the shorter one that is the same file or one
    earlier in the order of the names. *)
Theorem identifier_substring (files : list Path.t) (u u' : string)
  (start : datetime.t) :
  Str.contains u u' = true →
  (∀ f, _contains_uuid f u' = true → _contains_uuid f u = true) ∧
  (∀ f line, line ∈ extract_process_logs f u' → line ∈ extract_process_logs f u) ∧
  (∀ f', find_log_file files u' start = Some f' →
         ∃ f, find_log_file files u start = Some f ∧ Path.le f f').
Proof.
  intros Hu. split; [|split].
  - intros f. by apply contains_uuid_substring.
  - intros f line. unfold extract_process_logs.
    destruct (fails _); [done|]. rewrite !list_elem_of_filter.
    intros [Hc Hin]. split; [|done]. by apply (contains_trans u u').
  - intros f'. unfold find_log_file, find_log_file_run.
    pose proof (StronglySorted_merge_sort Path.le
                  (glob files (datetime.strftime_date start))) as Hsorted.
    fold (candidates files start) in Hsorted.
    destruct (find_log_file_loop u' start (candidates files start))
      as [opened' r'] eqn:H'. simpl. intros ->.
    apply find_log_file_loop_Some in H' as (pre' & post' & Hcs' & [Ha' Hc'] & _).
    assert (passes start u f') as Hpass
      by (split; [done | by apply (contains_uuid_substring u u')]).
    assert (f' ∈ candidates files start) as Hin'.
    { rewrite Hcs', elem_of_app. right. apply list_elem_of_here. }
    destruct (find_log_file_loop u start (candidates files start))
      as [opened r] eqn:H. simpl. destruct r as [f|].
    + exists f. split; [done|].
      apply find_log_file_loop_Some in H as (pre & post & Hcs & _ & Hpre & _).
      rewrite Hcs in Hin', Hsorted.
      apply elem_of_app in Hin' as [Hin'|Hin'].
      * rewrite Forall_forall in Hpre. by destruct (Hpre f' Hin').
      * apply StronglySorted_app in Hsorted as (_ & _ & Hs).
        apply elem_of_cons in Hin' as [->|Hin']; [by destruct (total Path.le f f)|].
        apply StronglySorted_cons in Hs as [Hall _].
        rewrite Forall_forall in Hall. by apply Hall.
    + apply find_log_file_loop_None in H as [Hnone _].
      rewrite Forall_forall in Hnone. by destruct (Hnone f' Hin').
Qed.

Lemma identifier_substring_witness :
  Str.contains "job-2" "job-20" = true ∧
  (_contains_uuid log_B "job-20" = true → _contains_uuid log_B "job-2" = true).
Proof.
  split; [reflexivity|].
  exact (proj1 (identifier_substring [] "job-2" "job-20" noon eq_refl) log_B).
Defined.

(** ** The plain-text report *)

Lemma contains_refl (s : string) : Str.contains s s = true.
Proof.
  apply contains_iff. exists ""%string, ""%string. by rewrite str_app_nil_r.
Qed.

Lemma contains_join_with (sep s : string) (l : list string) :
  s ∈ l → Str.contains s (Str.join_with sep l) = true.
Proof.
  induction l as [|a l IH]; [by intros ?%elem_of_nil|].
  intros [->|Hin]%elem_of_cons.
  - destruct l as [|b l]; [apply contains_refl|].
    cbn [Str.join_with]. apply contains_app_l, contains_refl.
  - destruct l as [|b l]; [by apply elem_of_nil in Hin|].
    cbn [Str.join_with]. by apply contains_app_r, contains_app_r, IH.
Qed.

Lemma elem_of_concat_fmap {A : Type} (f : A → list string) (l : list A)
  (x : A) (s : string) :
  x ∈ l → s ∈ f x → s ∈ concat (f <$> l).
Proof.
  intros Hx Hs. induction l as [|a l IH]; [by apply elem_of_nil in Hx|].
  rewrite fmap_cons. cbn [concat]. apply elem_of_app.
  apply elem_of_cons in Hx as [->|Hx]; [by left | right; by apply IH].
Qed.

Lemma text_report_failed_line c failed_logs finished_data timestamp p line :
  p ∈ failed c → line ∈ text_failed_lines failed_logs p →
  line ∈ text_report_lines c failed_logs finished_data timestamp.
Proof.
  intros Hp Hline. unfold text_report_lines. cbv zeta.
  apply elem_of_app. right. apply elem_of_app. left.
  destruct (failed c) as [|q qs] eqn:Hf; [by apply elem_of_nil in Hp|].
  rewrite <- Hf in *. apply elem_of_app. right. apply elem_of_app. left.
  by apply (elem_of_concat_fmap _ _ p).
Qed.

Lemma text_report_finished_line c failed_logs finished_data timestamp p line :
  p ∈ finished c → line ∈ text_finished_lines finished_data p →
  line ∈ text_report_lines c failed_logs finished_data timestamp.
Proof.
  intros Hp Hline. unfold text_report_lines. cbv zeta.
  apply elem_of_app. right. apply elem_of_app. right.
  destruct (finished c) as [|q qs] eqn:Hf; [by apply elem_of_nil in Hp|].
  rewrite <- Hf in *. apply elem_of_app. right. apply elem_of_app. left.
  by apply (elem_of_concat_fmap _ _ p).
Qed.

(** X17: the plain-text report is its lines joined by line ends. Among
    the lines are, for every failed job, the line with its identifier
    and, when its entry says [found = True], the line with the saved
    path; for every finished job the line with its identifier and, when
    a video address is stored for it, the line with the address. Running
    and other jobs have no lines of their own: they enter the report
    through their numbers only. *)
Theorem text_report_jobs (c : categorized) (failed_logs : gmap string log_info)
  (finished_data : gmap string finished_info) (timestamp : datetime.t) :
  let lines := text_report_lines c failed_logs finished_data timestamp in
  let text := _generate_text_report c failed_logs finished_data timestamp in
  (∀ line, line ∈ lines → Str.contains line text = true) ∧
  (∀ p, p ∈ failed c →
     ("UUID: " +:+ process_uuid p) ∈ lines ∧
     ∀ info path,
       failed_logs !! process_uuid p = Some info →
       info !! "found" = Some (PBool true) →
       info !! "saved_path" = Some (PStr path) →
       ("Log: " +:+ path) ∈ lines) ∧
  (∀ p, p ∈ finished c →
     ("UUID: " +:+ process_uuid p) ∈ lines ∧
     ∀ info link,
       finished_data !! process_uuid p = Some info →
       video_link info = Some link → link ≠ ""%string →
       ("Video: " +:+ link) ∈ lines) ∧
  (∀ c', finished c' = finished c → failed c' = failed c →
         length (running c') = length (running c) →
         length (other c') = length (other c) →
         _generate_text_report c' failed_logs finished_data timestamp = text).
Proof.
  cbv zeta. split; [|split; [|split]].
  - intros line Hline. by apply contains_join_with.
  - intros p Hp. split.
    + apply (text_report_failed_line _ _ _ _ p); [done|].
      unfold text_failed_lines. cbv zeta. apply elem_of_app. left.
      apply list_elem_of_further, list_elem_of_here.
    + intros info path Hinfo Hfound Hpath.
      apply (text_report_failed_line _ _ _ _ p); [done|].
      unfold text_failed_lines. cbv zeta. rewrite Hinfo. cbn [from_option id].
      rewrite Hfound, Hpath. cbn [from_option id truthy py_str].
      apply elem_of_app. right. apply list_elem_of_here.
  - intros p Hp. split.
    + apply (text_report_finished_line _ _ _ _ p); [done|].
      unfold text_finished_lines. cbv zeta. apply elem_of_app. left.
      apply list_elem_of_further, list_elem_of_here.
    + intros info link Hinfo Hlink Hne.
      apply (text_report_finished_line _ _ _ _ p); [done|].
      unfold text_finished_lines. cbv zeta. rewrite Hinfo.
      cbn [mbind option_bind]. rewrite Hlink.
      destruct (String.eqb_spec link ""); [done|].
      apply elem_of_app. right. apply list_elem_of_here.
  - intros c' Hfi Hfa Hru Hot. unfold _generate_text_report, text_report_lines.
    by rewrite Hfi, Hfa, Hru, Hot.
Qed.

(** The text report of the three jobs of the example. *)
Example text_report_three_jobs :
  let text :=
    _generate_text_report
      (mk_categorized [job_finished] [job_failed] [job_running] [])
      (<["job-2" := not_found_info]> ∅) ∅ noon in
  (Str.startswith (Str.times "=" 80 +:+ Str.nl +:+ "DAILY CLIENT PROCESS REPORT"
                   +:+ Str.nl +:+ "Generated: 2026-02-06 12:00:00" +:+ Str.nl) text,
   Str.contains (Str.nl +:+ "Total Processes: 3" +:+ Str.nl) text,
   Str.contains (Str.nl +:+ "UUID: job-2" +:+ Str.nl +:+ "Status: FAILED_TIMEOUT") text,
   Str.contains "job-3" text)
  = (true, true, true, false).
Proof. vm_compute. reflexivity. Qed.


(** ** The numbers of the report *)

Lemma append_cards_prefix {A : Type} (card : A → result string) (l : list A) :
  ∀ html html', append_cards card l html = Ok html' → ∃ added, html' = html +:+ added.
Proof.
  unfold append_cards. induction l as [|x l IH]; intros html html' H;
    cbn [for_each] in H.
  - injection H as <-. exists ""%string. by rewrite str_app_nil_r.
  - destruct (card x) as [c|]; [|done]. rewrite !result_bind_Ok in H.
    destruct (IH _ _ H) as [added ->]. eexists. by rewrite str_app_assoc.
Qed.

(** The report begins with the header, whatever follows. *)
Lemma generate_html_report_header c failed_logs finished_data timestamp html :
  _generate_html_report c failed_logs finished_data timestamp = Ok html →
  ∃ rest,
    html = html_header timestamp
             (length (finished c) + length (failed c) + length (running c)
              + length (other c))
             (length (finished c)) (length (failed c)) (length (running c))
           +:+ rest.
Proof.
  unfold _generate_html_report. cbv zeta.
  generalize (html_header timestamp
                (length (finished c) + length (failed c) + length (running c)
                 + length (other c))
                (length (finished c)) (length (failed c)) (length (running c))).
  intros header H.
  assert (∃ added,
            match failed c with
            | [] => Ok header
            | _ :: _ =>
                html ← append_cards (failed_card failed_logs) (failed c)
                         (header +:+ failed_section_open);
                Ok (html +:+ section_close)
            end = Ok (header +:+ added)) as [added Hadded].
  { destruct (failed c) as [|p ps].
    - exists ""%string. by rewrite str_app_nil_r.
    - destruct (append_cards _ _ _) as [html1|] eqn:Hcards; [|done].
      apply append_cards_prefix in Hcards as [added ->].
      rewrite result_bind_Ok. eexists. by rewrite !str_app_assoc. }
  rewrite Hadded, result_bind_Ok in H.
  destruct (pure_section (finished_card finished_data) (finished c)
              finished_section_open (header +:+ added)) as [fin Hfin].
  rewrite Hfin, result_bind_Ok in H.
  destruct (pure_section running_card (running c) running_section_open
              ((header +:+ added) +:+ fin)) as [run Hrun].
  rewrite Hrun, result_bind_Ok in H. injection H as <-.
  exists (added +:+ fin +:+ run +:+ html_footer).
  rewrite !str_app_assoc. reflexivity.
Qed.

(** X18: the report of a run begins with the header whose total is the
    number of rows that were not skipped, each counted once whatever its
    bucket, and whose three counters are the sizes of the buckets
    finished, failed and running of those rows; its time stamp is read
    after the logs were saved. *)
Theorem run_report_header (self : DailyReportOrchestrator) (e : env)
  (rows : list process) (out : outputs) (html : string) (out' : outputs) :
  run self e rows out = Ok (html, out') →
  ∃ c rest,
    categorize_processes (filter (kept (skip_apikeys self)) rows) = Ok c ∧
    (length (finished c) + length (failed c) + length (running c)
     + length (other c) = length (filter (kept (skip_apikeys self)) rows))%nat ∧
    html = html_header (now e (clock_reads out'))
             (length (filter (kept (skip_apikeys self)) rows))
             (length (finished c)) (length (failed c)) (length (running c))
           +:+ rest.
Proof.
  intros Hrun. unfold run in Hrun. rewrite fetch_processes_filter in Hrun.
  destruct (categorize_processes _) as [c|] eqn:Hc; [|done].
  rewrite !result_bind_Ok in Hrun. cbn beta iota in Hrun.
  destruct (process_failed_processes _ _ _ _ _) as [[failed_logs out1]|]; [|done].
  rewrite result_bind_Ok in Hrun. cbn beta iota in Hrun.
  destruct (process_finished_processes _ _) as [finished_data|]; [|done].
  rewrite result_bind_Ok in Hrun.
  destruct (_generate_html_report _ _ _ _) as [html1|] eqn:Hhtml; [|done].
  rewrite result_bind_Ok in Hrun. injection Hrun as <- <-.
  apply generate_html_report_header in Hhtml as [rest ->].
  assert (length (finished c) + length (failed c) + length (running c)
          + length (other c)
          = length (filter (kept (skip_apikeys self)) rows))%nat as Hlen.
  { pose proof (categorize_processes_lists _ _ Hc) as Hl.
    pose proof Hc as Hall. apply for_each_categorize in Hall as [Hall _].
    rewrite <- (Permutation_length (filter_buckets_Permutation _ Hall)).
    rewrite !length_app, <- (Hl Finished), <- (Hl Failed), <- (Hl Running),
      <- (Hl Other). cbn [bucket_list]. lia. }
  exists c, rest. split; [done|]. split; [exact Hlen|]. by rewrite Hlen.
Qed.

Lemma run_report_header_witness :
  ∃ html out' c rest,
    run sample_orchestrator sample_env sample_jobs no_outputs = Ok (html, out') ∧
    categorize_processes (filter (kept (skip_apikeys sample_orchestrator)) sample_jobs)
      = Ok c ∧
    html = html_header (now sample_env (clock_reads out')) 3
             (length (finished c)) (length (failed c)) (length (running c))
           +:+ rest.
Proof.
  destruct (run sample_orchestrator sample_env sample_jobs no_outputs)
    as [[html out']|ex] eqn:Hrun; [|by vm_compute in Hrun].
  destruct (run_report_header sample_orchestrator sample_env sample_jobs no_outputs
              html out' Hrun) as (c & rest & Hc & _ & Hhtml).
  exists html, out', c, rest. split; [reflexivity|]. split; [exact Hc | exact Hhtml].
Defined.
